(** * djd-agent-score: the request engine, its error model and the gating helpers

    A shallow embedding of [src/errors.ts] and [src/client.ts] (the
    [AgentScoreClient] class).  Promises are modelled by their settled
    result: a function that awaits returns either a value or the thrown
    value.  The network is an oracle that says, for the k-th call of
    [fetch] (which is the one made by attempt k of the retry loop),
    whether the promise rejects or which response it resolves to.  The
    calls of [_sleep] and [fetch] are recorded in a log, in order. *)

From Stdlib Require Import ZArith List String Ascii Bool Lia DecimalString.
From Equations Require Import Equations.
Import ListNotations.

Open Scope string_scope.
Open Scope Z_scope.

(* ===================================================================== *)
(** ** Run-time values *)
(* ===================================================================== *)

(** Decimal rendering of an integral JavaScript number inside a template
    literal (the rendering is the plain decimal one below 10^21). *)
Definition show_Z (z : Z) : string := NilZero.string_of_int (Z.to_int z).

(** [s.includes(needle)]: [needle] occurs in [s] at some position. *)
Fixpoint includes (s needle : string) : bool :=
  String.prefix needle s
  || match s with
     | EmptyString => false
     | String _ rest => includes rest needle
     end.

(** [text || fallback] on strings: the empty string is the only falsy one. *)
Definition or_else (text fallback : string) : string :=
  match text with
  | EmptyString => fallback
  | _ => text
  end.

(** The suffix matched by [/\/+$/] must consist of slashes only. *)
Fixpoint only_slashes (s : string) : bool :=
  match s with
  | EmptyString => true
  | String c rest => Ascii.eqb c "/" && only_slashes rest
  end.

(** [s.replace(/\/+$/, EMPTY)] with EMPTY the empty string: the leftmost position from which the rest of
    the subject is one or more slashes up to the end is where the match
    starts; the match is replaced by the empty string.  Without a match the
    subject is returned as it is. *)
Fixpoint strip_trailing_slashes (s : string) : string :=
  match s with
  | EmptyString => EmptyString
  | String c rest =>
      if Ascii.eqb c "/" && only_slashes rest then EmptyString
      else String c (strip_trailing_slashes rest)
  end.

(** A value produced by [JSON.parse].  A number is carried as the text that
    [Number.prototype.toString] gives for it: the program never computes
    with a number of a body, it only renders it.  [props] lists the own
    properties of a parsed object, each key once. *)
#[warnings="-register-all"]
Inductive json : Type :=
| JNull
| JBool (b : bool)
| JNum (shown : string)
| JStr (s : string)
| JArr (items : list json)
| JObj (props : list (string * json)).

(** The two [TypeError]s the run time raises on the values of this program. *)
Inductive TypeError : Type :=
| NullPropertyRead            (* reading a property of null *)
| NotConvertibleToPrimitive.  (* an object whose toString is not callable *)

(** Normal or abrupt completion of an expression. *)
Inductive completion (E A : Type) : Type :=
| Normal (a : A)
| Abrupt (e : E).
Arguments Normal {E A} a.
Arguments Abrupt {E A} e.

(** The property names this program reads off data that came from the
    server.  None of them is defined by a built-in prototype, so reading one
    of them finds an own property of an object or nothing. *)
Inductive field : Type :=
| f_accepts | f_maxAmountRequired | f_asset
| f_recommendation | f_score | f_wallet.

Definition field_name (f : field) : string :=
  match f with
  | f_accepts => "accepts"
  | f_maxAmountRequired => "maxAmountRequired"
  | f_asset => "asset"
  | f_recommendation => "recommendation"
  | f_score => "score"
  | f_wallet => "wallet"
  end.

Fixpoint own_property (props : list (string * json)) (k : string) : option json :=
  match props with
  | [] => None
  | (k', v) :: rest => if String.eqb k' k then Some v else own_property rest k
  end.

(** [v.f] for a value [v] that is not [undefined]: [None] is [undefined]. *)
Definition property (v : json) (f : field) : completion TypeError (option json) :=
  match v with
  | JNull => Abrupt NullPropertyRead
  | JObj props => Normal (own_property props (field_name f))
  | _ => Normal None
  end.

(** [v?.f], where [v] may be [undefined]. *)
Definition optional_property (v : option json) (f : field) : option json :=
  match v with
  | None | Some JNull => None
  | Some (JObj props) => own_property props (field_name f)
  | Some _ => None
  end.

(** [v ?? d]: [d] replaces [undefined] and [null] only. *)
Definition nullish_or (v : option json) (d : json) : json :=
  match v with
  | None | Some JNull => d
  | Some x => x
  end.

(** [ToString] as a template literal applies it.  An array is joined with
    commas, a null element rendering as the empty string; a parsed object
    renders through [Object.prototype.toString] unless it has an own
    [toString] property, which is never callable in parsed data, and then
    the conversion throws. *)
Fixpoint ToString (v : json) : option string :=
  match v with
  | JNull => Some "null"
  | JBool true => Some "true"
  | JBool false => Some "false"
  | JNum shown => Some shown
  | JStr s => Some s
  | JArr items =>
      (fix join (l : list json) : option string :=
         match l with
         | [] => Some EmptyString
         | x :: rest =>
             let elem := match x with JNull => Some EmptyString | _ => ToString x end in
             match elem, rest with
             | None, _ => None
             | Some e, [] => Some e
             | Some e, _ :: _ =>
                 match join rest with
                 | Some r => Some (e ++ "," ++ r)
                 | None => None
                 end
             end
         end) items
  | JObj props =>
      match own_property props "toString" with
      | Some _ => None
      | None => Some "[object Object]"
      end
  end.

(* ===================================================================== *)
(** ** errors.ts *)
(* ===================================================================== *)

Module AgentScoreError.

Record t : Type := { name : string; message : string }.

Definition new (message : string) : t :=
  {| name := "AgentScoreError"; message := message |}.

End AgentScoreError.

Module NetworkError.

Record t : Type := { name : string; message : string; statusCode : option Z }.

(** [new NetworkError(message, statusCode?)]. *)
Definition new (message : string) (statusCode : option Z) : t :=
  {| name := "NetworkError"; message := message; statusCode := statusCode |}.

End NetworkError.

Module PaymentRequiredError.

Record t : Type :=
  { name : string;
    message : string;
    statusCode : Z;
    accepts : list json;
    rawBody : json }.

(** [accepts[0]?.f ?? "unknown"]. *)
Definition first_option_field (accepts : list json) (f : field) : json :=
  nullish_or (optional_property (nth_error accepts 0) f) (JStr "unknown").

(** [new PaymentRequiredError(accepts, rawBody)]; the template literal of
    the message converts [amount] and then [asset] to strings. *)
Definition new (accepts : list json) (rawBody : json) : completion TypeError t :=
  let amount := first_option_field accepts f_maxAmountRequired in
  let asset := first_option_field accepts f_asset in
  match ToString amount with
  | None => Abrupt NotConvertibleToPrimitive
  | Some amount_text =>
      match ToString asset with
      | None => Abrupt NotConvertibleToPrimitive
      | Some asset_text =>
          Normal {| name := "PaymentRequiredError";
                    message := "Payment required: " ++ amount_text ++ " " ++ asset_text;
                    statusCode := 402;
                    accepts := accepts;
                    rawBody := rawBody |}
      end
  end.

End PaymentRequiredError.

(* ===================================================================== *)
(** ** client.ts: configuration, network and the engine *)
(* ===================================================================== *)

Definition DEFAULT_BASE_URL : string := "https://djd-agent-score.fly.dev".
Definition DEFAULT_TIMEOUT_MS : Z := 10000.
Definition DEFAULT_MAX_RETRIES : Z := 3.
Definition INITIAL_BACKOFF_MS : Z := 1000.

(** [AgentScoreClientOptions]: every option may be left out. *)
Record AgentScoreClientOptions : Type :=
  { opt_baseUrl : option string;
    opt_timeoutMs : option Z;
    opt_maxRetries : option Z }.

Record AgentScoreClient : Type :=
  { baseUrl : string;
    timeoutMs : Z;
    maxRetries : Z }.

(** [o ?? d] on an optional option. *)
Definition default_to {A : Type} (o : option A) (d : A) : A :=
  match o with
  | Some a => a
  | None => d
  end.

Definition constructor (options : AgentScoreClientOptions) : AgentScoreClient :=
  {| baseUrl := strip_trailing_slashes (default_to (opt_baseUrl options) DEFAULT_BASE_URL);
     timeoutMs := default_to (opt_timeoutMs options) DEFAULT_TIMEOUT_MS;
     maxRetries := default_to (opt_maxRetries options) DEFAULT_MAX_RETRIES |}.

Inductive Method : Type := GET | POST.

Definition Method_text (m : Method) : string :=
  match m with
  | GET => "GET"
  | POST => "POST"
  end.

(** A response as the engine reads it: [json_body] and [text_body] are what
    [res.json()] and [res.text()] settle to, [None] for a rejection (a body
    that cannot be read or, for [res.json()], does not parse). *)
Record Response : Type :=
  { status : Z;
    statusText : string;
    json_body : option json;
    text_body : option string }.

(** What the promise of [fetch] rejects with: an [Error] with its message,
    or a value that is not an [Error]. *)
Inductive rejection : Type :=
| RejectedError (message : string)
| RejectedValue.

(** What happened on the wire when no response arrived.  The engine cannot
    observe it: it sees the rejection only. *)
Inductive transport_cause : Type :=
| TimeoutElapsed       (* the timer of the attempt fired and aborted the call *)
| DnsFailure
| ConnectionRefused
| ConnectionLost.

Inductive exchange : Type :=
| Rejects (cause : transport_cause) (err : rejection)
| Resolves (res : Response).

(** The network: the exchange of the k-th call of [fetch], from 0. *)
Definition network : Type := Z -> exchange.

(** The effects of an invocation, in order. *)
Inductive event : Type :=
| Sleep (ms : Z)
| Fetch (url : string) (method : Method) (contentTypeJson : bool) (body : option json).

(** What an invocation throws. *)
Inductive thrown : Type :=
| ThrownPaymentRequired (e : PaymentRequiredError.t)
| ThrownNetwork (e : NetworkError.t)
| ThrownTypeError (e : TypeError)
| ThrownByBodyReader.   (* the rejection of [res.json()] or [res.text()] *)

Inductive outcome (A : Type) : Type :=
| Returned (a : A)
| Threw (t : thrown).
Arguments Returned {A} a.
Arguments Threw {A} t.

(** An expression that may raise a [TypeError], inside an invocation: the
    error is thrown out of the invocation, nothing catches it. *)
Definition try_eval {A B : Type} (c : completion TypeError A) (k : A -> outcome B)
  : outcome B :=
  match c with
  | Abrupt e => Threw (ThrownTypeError e)
  | Normal a => k a
  end.

Notation "'let!' x ':=' c 'in' k" := (try_eval c (fun x => k))
  (at level 10, x name, c at level 100, k at level 200).

(** The [catch] block of an attempt: the error recorded for a rejected
    [fetch]. *)
Definition transport_error (this : AgentScoreClient) (method : Method) (path : string)
  (err : rejection) : NetworkError.t :=
  let msg := match err with
             | RejectedError m => m
             | RejectedValue => "Unknown network error"
             end in
  NetworkError.new
    (if includes msg "abort"
     then "Request timed out after " ++ show_Z (timeoutMs this) ++ "ms: "
          ++ Method_text method ++ " " ++ path
     else "Network error: " ++ msg)
    None.

(** [await res.text()], the empty string when it rejects, followed by
    [text || res.statusText]. *)
Definition error_text (res : Response) : string :=
  or_else (default_to (text_body res) EmptyString) (statusText res).

Definition server_error (res : Response) : NetworkError.t :=
  NetworkError.new
    ("Server error " ++ show_Z (status res) ++ ": " ++ error_text res)
    (Some (status res)).

Definition client_error (res : Response) : NetworkError.t :=
  NetworkError.new
    ("HTTP " ++ show_Z (status res) ++ ": " ++ error_text res)
    (Some (status res)).

(** The 402 branch of [_request]. *)
Definition payment_required {A : Type} (res : Response) : outcome A :=
  let raw := default_to (json_body res) (JObj []) in
  let! raw_accepts := property raw f_accepts in
  let accepts := match raw_accepts with
                 | Some (JArr items) => items
                 | _ => []
                 end in
  let! e := PaymentRequiredError.new accepts raw in
  Threw (ThrownPaymentRequired e).

(** [throw lastError ?? new NetworkError("Request failed after retries")]. *)
Definition exhausted {A : Type} (lastError : option NetworkError.t) : outcome A :=
  Threw (ThrownNetwork
           (default_to lastError (NetworkError.new "Request failed after retries" None))).

(** The head of the loop body: the backoff before a retry. *)
Definition backoff_events (attempt : Z) : list event :=
  if 0 <? attempt then [Sleep (INITIAL_BACKOFF_MS * 2 ^ (attempt - 1))] else [].

(** The loop of [_request], from [attempt] on, with the last recorded error
    and the log of the effects so far. *)
Equations? request_loop (this : AgentScoreClient) (net : network)
  (method : Method) (path : string) (body : option json)
  (attempt : Z) (lastError : option NetworkError.t) (log : list event)
  : list event * outcome json
  by wf (Z.to_nat (maxRetries this + 1 - attempt)) lt :=
request_loop this net method path body attempt lastError log
  with Z_le_gt_dec attempt (maxRetries this) := {
  | right _ => (log, exhausted lastError)
  | left _ =>
      let url := baseUrl this ++ path in
      let log := (log ++ backoff_events attempt
                      ++ [Fetch url method
                            (match body with Some _ => true | None => false end) body])%list in
      match net attempt with
      | Rejects _ err =>
          request_loop this net method path body (attempt + 1)
            (Some (transport_error this method path err)) log
      | Resolves res =>
          if status res =? 402 then (log, payment_required res)
          else if 500 <=? status res then
            request_loop this net method path body (attempt + 1)
              (Some (server_error res)) log
          else if 400 <=? status res then
            (log, Threw (ThrownNetwork (client_error res)))
          else
            (log, match json_body res with
                  | Some payload => Returned payload
                  | None => Threw ThrownByBodyReader
                  end)
      end }.
Proof.
  all: lia.
Qed.

Definition _request (this : AgentScoreClient) (net : network)
  (method : Method) (path : string) (body : option json) : list event * outcome json :=
  request_loop this net method path body 0 None [].

(** The loop of [_requestText]: no request body, no 402 branch, and the
    body of a success is returned as text. *)
Equations? request_text_loop (this : AgentScoreClient) (net : network)
  (method : Method) (path : string)
  (attempt : Z) (lastError : option NetworkError.t) (log : list event)
  : list event * outcome string
  by wf (Z.to_nat (maxRetries this + 1 - attempt)) lt :=
request_text_loop this net method path attempt lastError log
  with Z_le_gt_dec attempt (maxRetries this) := {
  | right _ => (log, exhausted lastError)
  | left _ =>
      let url := baseUrl this ++ path in
      let log := (log ++ backoff_events attempt ++ [Fetch url method false None])%list in
      match net attempt with
      | Rejects _ err =>
          request_text_loop this net method path (attempt + 1)
            (Some (transport_error this method path err)) log
      | Resolves res =>
          if 500 <=? status res then
            request_text_loop this net method path (attempt + 1)
              (Some (server_error res)) log
          else if 400 <=? status res then
            (log, Threw (ThrownNetwork (client_error res)))
          else
            (log, match text_body res with
                  | Some text => Returned text
                  | None => Threw ThrownByBodyReader
                  end)
      end }.
Proof.
  all: lia.
Qed.

Definition _requestText (this : AgentScoreClient) (net : network)
  (method : Method) (path : string) : list event * outcome string :=
  request_text_loop this net method path 0 None [].

(* ===================================================================== *)
(** ** client.ts: the score endpoint and the gating helpers *)
(* ===================================================================== *)

(** [GateReason] of types.ts. *)
Inductive GateReason : Type :=
| proceed
| proceed_with_caution
| blocked
| unknown_recommendation.

(** What [KNOWN_REASONS[key]] can evaluate to: [KNOWN_REASONS] is an object
    literal, so a key that is not an own property is looked up in
    [Object.prototype], whose members are functions (an object for
    [__proto__]) and not strings. *)
Inductive reason_value : Type :=
| Reason (r : GateReason)
| ObjectPrototypeMember (key : string).

Definition KNOWN_REASONS : list (string * GateReason) :=
  [ ("proceed", proceed);
    ("proceed_with_caution", proceed_with_caution);
    ("deny", blocked);
    ("block", blocked) ].

(** The property names of [Object.prototype]. *)
Definition Object_prototype_keys : list string :=
  [ "constructor"; "hasOwnProperty"; "isPrototypeOf"; "propertyIsEnumerable";
    "toLocaleString"; "toString"; "valueOf"; "__proto__";
    "__defineGetter__"; "__defineSetter__"; "__lookupGetter__"; "__lookupSetter__" ].

Fixpoint assoc {A : Type} (l : list (string * A)) (k : string) : option A :=
  match l with
  | [] => None
  | (k', v) :: rest => if String.eqb k' k then Some v else assoc rest k
  end.

(** [KNOWN_REASONS[key]]: [None] is [undefined]. *)
Definition KNOWN_REASONS_get (key : string) : option reason_value :=
  match assoc KNOWN_REASONS key with
  | Some r => Some (Reason r)
  | None =>
      if existsb (String.eqb key) Object_prototype_keys
      then Some (ObjectPrototypeMember key)
      else None
  end.

(** [ToPropertyKey] of a value that may be [undefined]. *)
Definition ToPropertyKey (v : option json) : completion TypeError string :=
  match v with
  | None => Normal "undefined"
  | Some x =>
      match ToString x with
      | Some s => Normal s
      | None => Abrupt NotConvertibleToPrimitive
      end
  end.

(** [v === s] for a string literal [s]. *)
Definition strict_equals_string (v : option json) (s : string) : bool :=
  match v with
  | Some (JStr s') => String.eqb s' s
  | _ => false
  end.

(** [reason === "proceed" || reason === "proceed_with_caution"]. *)
Definition is_approving (reason : reason_value) : bool :=
  match reason with
  | Reason proceed | Reason proceed_with_caution => true
  | _ => false
  end.

(** [GateResult] of types.ts, with its fields as they are at run time. *)
Record GateResult : Type :=
  { approved : bool;
    reason : reason_value;
    score : option json;
    recommendation : option json;
    wallet : option json }.

Section Endpoints.

(** The built-in [encodeURIComponent]. *)
Variable encodeURIComponent : string -> string.

Definition getBasicScore (this : AgentScoreClient) (net : network) (wallet : string)
  : list event * outcome json :=
  _request this net GET ("/v1/score/basic?wallet=" ++ encodeURIComponent wallet) None.

Definition getBadge (this : AgentScoreClient) (net : network) (wallet : string)
  : list event * outcome string :=
  _requestText this net GET ("/v1/badge/" ++ encodeURIComponent wallet ++ ".svg").

Definition shouldTransact (this : AgentScoreClient) (net : network) (wallet : string)
  : list event * outcome bool :=
  let (log, fetched) := getBasicScore this net wallet in
  (log,
   match fetched with
   | Threw t => Threw t
   | Returned data =>
       let! recommendation := property data f_recommendation in
       Returned (strict_equals_string recommendation "proceed")
   end).

Definition gateTransaction (this : AgentScoreClient) (net : network) (wallet : string)
  : list event * outcome GateResult :=
  let (log, fetched) := getBasicScore this net wallet in
  (log,
   match fetched with
   | Threw t => Threw t
   | Returned data =>
       let! data_recommendation := property data f_recommendation in
       let! key := ToPropertyKey data_recommendation in
       let reason :=
         default_to (KNOWN_REASONS_get key) (Reason unknown_recommendation) in
       let! data_score := property data f_score in
       let! data_recommendation := property data f_recommendation in
       let! data_wallet := property data f_wallet in
       Returned {| approved := is_approving reason;
                   reason := reason;
                   score := data_score;
                   recommendation := data_recommendation;
                   wallet := data_wallet |}
   end).

(** The other endpoints: a path and, for two of them, a body. *)
Definition getFullScore (this : AgentScoreClient) (net : network) (wallet : string)
  : list event * outcome json :=
  _request this net GET ("/v1/score/full?wallet=" ++ encodeURIComponent wallet) None.

Definition refreshScore (this : AgentScoreClient) (net : network) (wallet : string)
  : list event * outcome json :=
  _request this net POST ("/v1/score/refresh?wallet=" ++ encodeURIComponent wallet) None.

(** [if (txHashes) body.txHashes = txHashes]: an array is truthy, also the
    empty one. *)
Definition reportFraud_body (wallet reason : string) (txHashes : option (list string))
  : json :=
  JObj ([("wallet", JStr wallet); ("evidence", JStr reason)]
        ++ match txHashes with
           | Some hashes => [("txHashes", JArr (map JStr hashes))]
           | None => []
           end).

Definition reportFraud (this : AgentScoreClient) (net : network)
  (wallet reason : string) (txHashes : option (list string))
  : list event * outcome json :=
  _request this net POST "/v1/report" (Some (reportFraud_body wallet reason txHashes)).

Definition checkBlacklist (this : AgentScoreClient) (net : network) (wallet : string)
  : list event * outcome json :=
  _request this net GET
    ("/v1/data/fraud/blacklist?wallet=" ++ encodeURIComponent wallet) None.

(** [limit != null] holds of every number, also of 0. *)
Definition getLeaderboard (this : AgentScoreClient) (net : network) (limit : option Z)
  : list event * outcome json :=
  let query := match limit with
               | Some n => "?limit=" ++ show_Z n
               | None => EmptyString
               end in
  _request this net GET ("/v1/leaderboard" ++ query) None.

(** [if (githubUrl) body.githubUrl = githubUrl]: the empty string is falsy. *)
Definition registerAgent_body (wallet name description : string)
  (githubUrl : option string) : json :=
  JObj ([("wallet", JStr wallet); ("name", JStr name); ("description", JStr description)]
        ++ match githubUrl with
           | None | Some EmptyString => []
           | Some url => [("githubUrl", JStr url)]
           end).

Definition registerAgent (this : AgentScoreClient) (net : network)
  (wallet name description : string) (githubUrl : option string)
  : list event * outcome json :=
  _request this net POST "/v1/agent/register"
    (Some (registerAgent_body wallet name description githubUrl)).

Definition healthCheck (this : AgentScoreClient) (net : network)
  : list event * outcome json :=
  _request this net GET "/health" None.

End Endpoints.

(* ===================================================================== *)
(** ** Vocabulary of the properties *)
(* ===================================================================== *)

(** An exchange after which the loop goes on: no response, or a 5xx. *)
Definition retryable (x : exchange) : bool :=
  match x with
  | Rejects _ _ => true
  | Resolves res => 500 <=? status res
  end.

(** The error the loop records for a retryable exchange. *)
Definition recorded_error (this : AgentScoreClient) (method : Method) (path : string)
  (x : exchange) : NetworkError.t :=
  match x with
  | Rejects _ err => transport_error this method path err
  | Resolves res => server_error res
  end.

(** The [fetch] call of [_request] and the one of [_requestText]. *)
Definition fetch_of_request (this : AgentScoreClient) (method : Method) (path : string)
  (body : option json) : event :=
  Fetch (baseUrl this ++ path) method
    (match body with Some _ => true | None => false end) body.

Definition fetch_of_requestText (this : AgentScoreClient) (method : Method)
  (path : string) : event :=
  Fetch (baseUrl this ++ path) method false None.

Definition is_fetch (e : event) : bool :=
  match e with
  | Fetch _ _ _ _ => true
  | Sleep _ => false
  end.

(** The number of attempts of a log: its calls of [fetch]. *)
Definition attempts_made (log : list event) : Z :=
  Z.of_nat (List.length (filter is_fetch log)).

(** The delays of a log, in order. *)
Fixpoint sleeps (log : list event) : list Z :=
  match log with
  | [] => []
  | Sleep ms :: rest => ms :: sleeps rest
  | Fetch _ _ _ _ :: rest => sleeps rest
  end.

(** The log of [n] consecutive attempts from attempt [k] on: attempt 0 is a
    bare call, retry [S j] is a delay of 1000 * 2^j followed by the call. *)
Fixpoint expected_log (call : event) (k n : nat) : list event :=
  match n with
  | O => []
  | S n' =>
      (match k with
       | O => []
       | S j => [Sleep (1000 * 2 ^ Z.of_nat j)]
       end ++ call :: expected_log call (S k) n')%list
  end.

(** The last character of a string is not a slash (or there is none). *)
Fixpoint no_trailing_slash (s : string) : bool :=
  match s with
  | EmptyString => true
  | String c EmptyString => negb (Ascii.eqb c "/")
  | String _ rest => no_trailing_slash rest
  end.

(** The message of a rejection as the [catch] block takes it. *)
Definition rejection_message (err : rejection) : string :=
  match err with
  | RejectedError m => m
  | RejectedValue => "Unknown network error"
  end.

(** The message a rejected attempt would record if the wording followed
    what happened on the wire: the timed-out wording for the timeout of the
    attempt, the other one for every other failure. *)
Definition message_by_cause (this : AgentScoreClient) (method : Method) (path : string)
  (cause : transport_cause) (err : rejection) : string :=
  match cause with
  | TimeoutElapsed =>
      "Request timed out after " ++ show_Z (timeoutMs this) ++ "ms: "
      ++ Method_text method ++ " " ++ path
  | _ => "Network error: " ++ rejection_message err
  end.

(** What [_request] does with a response that is not a 5xx. *)
Definition settled_request (res : Response) : outcome json :=
  if status res =? 402 then payment_required res
  else if 400 <=? status res then Threw (ThrownNetwork (client_error res))
  else match json_body res with
       | Some payload => Returned payload
       | None => Threw ThrownByBodyReader
       end.

(** What [_requestText] does with a response that is not a 5xx. *)
Definition settled_requestText (res : Response) : outcome string :=
  if 400 <=? status res then Threw (ThrownNetwork (client_error res))
  else match text_body res with
       | Some text => Returned text
       | None => Threw ThrownByBodyReader
       end.

(** The time an invocation spends in [_sleep], in milliseconds. *)
Definition total_sleep (log : list event) : Z :=
  fold_right Z.add 0 (sleeps log).

(** The value is a parsed object: the only kind that has own properties. *)
Definition is_object (v : json) : bool :=
  match v with
  | JObj _ => true
  | _ => false
  end.

(* ===================================================================== *)
(** ** Lemmas on the run-time helpers *)
(* ===================================================================== *)

Lemma prefix_iff (p s : string) :
  String.prefix p s = true <-> exists rest, s = p ++ rest.
Proof.
  revert s; induction p as [|c p IH]; intros s.
  - split; [intros _; exists s; reflexivity | intros _; destruct s; reflexivity].
  - destruct s as [|d s]; simpl.
    + split; [discriminate | intros [rest H]; discriminate].
    + destruct (Ascii.ascii_dec c d) as [->|Hcd].
      * rewrite IH. split; intros [rest H]; exists rest.
        -- now rewrite H.
        -- now inversion H.
      * split; [discriminate | intros [rest H]; injection H as H1 H2; congruence].
Qed.

(** [includes] is the substring test. *)
Lemma includes_iff (s needle : string) :
  includes s needle = true <-> exists before after, s = before ++ needle ++ after.
Proof.
  induction s as [|c s IH]; cbn [includes].
  - rewrite orb_false_r, prefix_iff. split.
    + intros [rest H]. exists EmptyString, rest. exact H.
    + intros [[|b before] [after H]]; [exists after; exact H | discriminate].
  - rewrite orb_true_iff, prefix_iff, IH. split.
    + intros [[rest H] | [before [after H]]].
      * exists EmptyString, rest. exact H.
      * exists (String c before), after. simpl. now rewrite H.
    + intros [[|b before] [after H]].
      * left. exists after. exact H.
      * right. exists before, after. simpl in H. now inversion H.
Qed.

Lemma only_slashes_app (a b : string) :
  only_slashes (a ++ b) = only_slashes a && only_slashes b.
Proof.
  induction a as [|c a IH]; simpl; [reflexivity|].
  now rewrite IH, andb_assoc.
Qed.

(** Stripping removes a whole run of trailing slashes, and nothing else. *)
Lemma strip_trailing_slashes_app (origin slashes : string) :
  no_trailing_slash origin = true ->
  only_slashes slashes = true ->
  strip_trailing_slashes (origin ++ slashes) = origin.
Proof.
  intros Ho Hs. induction origin as [|c origin IH].
  - simpl. destruct slashes as [|d slashes]; [reflexivity|].
    simpl in *. now rewrite Hs.
  - simpl. destruct origin as [|c' origin].
    + simpl in *. destruct (Ascii.eqb c "/"); [discriminate|]. simpl.
      f_equal. now apply IH.
    + rewrite only_slashes_app.
      assert (Hn : only_slashes (String c' origin) = false).
      { clear - Ho. revert c' Ho. induction origin as [|d origin IHo]; intros c' Ho.
        - simpl in *. destruct (Ascii.eqb c' "/"); [discriminate | reflexivity].
        - change (only_slashes (String c' (String d origin)))
            with (Ascii.eqb c' "/" && only_slashes (String d origin)).
          rewrite (IHo d); [apply andb_false_r | exact Ho]. }
      rewrite Hn, andb_false_l, andb_false_r. f_equal. now apply IH.
Qed.

(** Every string is its stripped form followed by a run of slashes. *)
Lemma strip_trailing_slashes_split (s : string) :
  exists slashes,
    only_slashes slashes = true /\ s = strip_trailing_slashes s ++ slashes.
Proof.
  induction s as [|c s [slashes [Hs Heq]]].
  - exists EmptyString. split; reflexivity.
  - simpl. destruct (Ascii.eqb c "/" && only_slashes s) eqn:E.
    + exists (String c s). split; [exact E | reflexivity].
    + exists slashes. split; [exact Hs|]. simpl. now rewrite <- Heq.
Qed.

Lemma strip_trailing_slashes_empty (s : string) :
  strip_trailing_slashes s = EmptyString -> only_slashes s = true.
Proof.
  destruct s as [|c s]; [reflexivity|].
  simpl. destruct (Ascii.eqb c "/" && only_slashes s); [reflexivity | discriminate].
Qed.

Lemma strip_trailing_slashes_clean (s : string) :
  no_trailing_slash (strip_trailing_slashes s) = true.
Proof.
  induction s as [|c s IH]; [reflexivity|].
  simpl. destruct (Ascii.eqb c "/" && only_slashes s) eqn:E; [reflexivity|].
  simpl. destruct (strip_trailing_slashes s) eqn:Es.
  - apply strip_trailing_slashes_empty in Es. rewrite Es, andb_true_r in E.
    now rewrite E.
  - exact IH.
Qed.
(** ** Lemmas on the retry loops *)
(* ===================================================================== *)

Lemma request_loop_step this net method path body attempt lastError log :
  request_loop this net method path body attempt lastError log =
  if attempt <=? maxRetries this then
    let log' := (log ++ backoff_events attempt
                     ++ [fetch_of_request this method path body])%list in
    match net attempt with
    | Rejects _ err =>
        request_loop this net method path body (attempt + 1)
          (Some (transport_error this method path err)) log'
    | Resolves res =>
        if status res =? 402 then (log', payment_required res)
        else if 500 <=? status res then
          request_loop this net method path body (attempt + 1)
            (Some (server_error res)) log'
        else if 400 <=? status res then
          (log', Threw (ThrownNetwork (client_error res)))
        else
          (log', match json_body res with
                 | Some payload => Returned payload
                 | None => Threw ThrownByBodyReader
                 end)
    end
  else (log, exhausted lastError).
Proof.
  rewrite request_loop_equation_1.
  destruct (Z_le_gt_dec attempt (maxRetries this)) as [H|H];
    destruct (Z.leb_spec attempt (maxRetries this)); try lia; reflexivity.
Qed.

Lemma backoff_events_nat (k : nat) :
  backoff_events (Z.of_nat k) =
  match k with
  | O => []
  | S j => [Sleep (1000 * 2 ^ Z.of_nat j)]
  end.
Proof.
  unfold backoff_events, INITIAL_BACKOFF_MS. destruct k as [|j].
  - reflexivity.
  - destruct (Z.ltb_spec 0 (Z.of_nat (S j))); [|lia].
    replace (Z.of_nat (S j) - 1) with (Z.of_nat j) by lia. reflexivity.
Qed.

Lemma request_loop_exhausts this net method path body (n : nat) :
  forall (k : nat) lastError log,
    n = Z.to_nat (maxRetries this + 1 - Z.of_nat k) ->
    (forall i, Z.of_nat k <= i <= maxRetries this -> retryable (net i) = true) ->
    request_loop this net method path body (Z.of_nat k) lastError log =
    ((log ++ expected_log (fetch_of_request this method path body) k n)%list,
     exhausted (if Z.of_nat k <=? maxRetries this
                then Some (recorded_error this method path (net (maxRetries this)))
                else lastError)).
Proof.
  induction n as [|n IH]; intros k lastError log Hn Hret;
    rewrite request_loop_step.
  - destruct (Z.leb_spec (Z.of_nat k) (maxRetries this)); [lia|].
    simpl. now rewrite app_nil_r.
  - destruct (Z.leb_spec (Z.of_nat k) (maxRetries this)) as [Hle|]; [|lia].
    cbv zeta. pose proof (Hret (Z.of_nat k) ltac:(lia)) as Hk.
    assert (Hnext :
      forall e,
        request_loop this net method path body (Z.of_nat k + 1) (Some e)
          (log ++ backoff_events (Z.of_nat k)
               ++ [fetch_of_request this method path body])%list =
        ((log ++ expected_log (fetch_of_request this method path body) k (S n))%list,
         exhausted (if Z.of_nat k + 1 <=? maxRetries this
                    then Some (recorded_error this method path (net (maxRetries this)))
                    else Some e))).
    { intros e. replace (Z.of_nat k + 1) with (Z.of_nat (S k)) by lia.
      rewrite IH; [|lia|intros i Hi; apply Hret; lia].
      rewrite backoff_events_nat. simpl expected_log.
      now rewrite <- !app_assoc. }
    assert (Hlast : (Z.of_nat k + 1 <=? maxRetries this) = false ->
                    maxRetries this = Z.of_nat k).
    { intros E. apply Z.leb_gt in E. lia. }
    destruct (net (Z.of_nat k)) as [cause err|res] eqn:Enet; simpl in Hk.
    + rewrite Hnext. f_equal.
      destruct (Z.of_nat k + 1 <=? maxRetries this) eqn:E; [reflexivity|].
      rewrite (Hlast eq_refl), Enet. reflexivity.
    + apply Z.leb_le in Hk.
      destruct (Z.eqb_spec (status res) 402); [lia|].
      destruct (Z.leb_spec 500 (status res)); [|lia].
      rewrite Hnext. f_equal.
      destruct (Z.of_nat k + 1 <=? maxRetries this) eqn:E; [reflexivity|].
      rewrite (Hlast eq_refl), Enet. reflexivity.
Qed.

Lemma request_loop_log this net method path body (n : nat) :
  forall (k : nat) lastError log,
    n = Z.to_nat (maxRetries this + 1 - Z.of_nat k) ->
    exists m : nat,
      (m <= n)%nat /\ (n <> O -> m <> O) /\
      fst (request_loop this net method path body (Z.of_nat k) lastError log) =
      (log ++ expected_log (fetch_of_request this method path body) k m)%list.
Proof.
  induction n as [|n IH]; intros k lastError log Hn;
    rewrite request_loop_step.
  - destruct (Z.leb_spec (Z.of_nat k) (maxRetries this)); [lia|].
    exists O. simpl. now rewrite app_nil_r.
  - destruct (Z.leb_spec (Z.of_nat k) (maxRetries this)) as [Hle|]; [|lia].
    cbv zeta.
    assert (Hstop :
      (log ++ backoff_events (Z.of_nat k)
           ++ [fetch_of_request this method path body])%list =
      (log ++ expected_log (fetch_of_request this method path body) k 1)%list).
    { rewrite backoff_events_nat. reflexivity. }
    assert (Hnext :
      forall e, exists m : nat,
        (m <= S n)%nat /\ (S n <> O -> m <> O) /\
        fst (request_loop this net method path body (Z.of_nat k + 1) (Some e)
               (log ++ backoff_events (Z.of_nat k)
                    ++ [fetch_of_request this method path body])%list) =
        (log ++ expected_log (fetch_of_request this method path body) k m)%list).
    { intros e. replace (Z.of_nat k + 1) with (Z.of_nat (S k)) by lia.
      destruct (IH (S k) (Some e)
                  (log ++ backoff_events (Z.of_nat k)
                       ++ [fetch_of_request this method path body])%list
                  ltac:(lia)) as [m [Hm [_ Hlog]]].
      exists (S m). repeat split; [lia | discriminate |].
      rewrite Hlog, backoff_events_nat. simpl expected_log.
      now rewrite <- !app_assoc. }
    destruct (net (Z.of_nat k)) as [cause err|res]; [apply Hnext|].
    destruct (status res =? 402);
      [exists 1%nat; repeat split; [lia | discriminate | exact Hstop]|].
    destruct (500 <=? status res); [apply Hnext|].
    destruct (400 <=? status res);
      exists 1%nat; (repeat split; [lia | discriminate | exact Hstop]).
Qed.

Lemma request_text_loop_step this net method path attempt lastError log :
  request_text_loop this net method path attempt lastError log =
  if attempt <=? maxRetries this then
    let log' := (log ++ backoff_events attempt
                     ++ [fetch_of_requestText this method path])%list in
    match net attempt with
    | Rejects _ err =>
        request_text_loop this net method path (attempt + 1)
          (Some (transport_error this method path err)) log'
    | Resolves res =>
        if 500 <=? status res then
          request_text_loop this net method path (attempt + 1)
            (Some (server_error res)) log'
        else if 400 <=? status res then
          (log', Threw (ThrownNetwork (client_error res)))
        else
          (log', match text_body res with
                 | Some text => Returned text
                 | None => Threw ThrownByBodyReader
                 end)
    end
  else (log, exhausted lastError).
Proof.
  rewrite request_text_loop_equation_1.
  destruct (Z_le_gt_dec attempt (maxRetries this)) as [H|H];
    destruct (Z.leb_spec attempt (maxRetries this)); try lia; reflexivity.
Qed.

Lemma request_text_loop_exhausts this net method path (n : nat) :
  forall (k : nat) lastError log,
    n = Z.to_nat (maxRetries this + 1 - Z.of_nat k) ->
    (forall i, Z.of_nat k <= i <= maxRetries this -> retryable (net i) = true) ->
    request_text_loop this net method path (Z.of_nat k) lastError log =
    ((log ++ expected_log (fetch_of_requestText this method path) k n)%list,
     exhausted (if Z.of_nat k <=? maxRetries this
                then Some (recorded_error this method path (net (maxRetries this)))
                else lastError)).
Proof.
  induction n as [|n IH]; intros k lastError log Hn Hret;
    rewrite request_text_loop_step.
  - destruct (Z.leb_spec (Z.of_nat k) (maxRetries this)); [lia|].
    simpl. now rewrite app_nil_r.
  - destruct (Z.leb_spec (Z.of_nat k) (maxRetries this)) as [Hle|]; [|lia].
    cbv zeta. pose proof (Hret (Z.of_nat k) ltac:(lia)) as Hk.
    assert (Hnext :
      forall e,
        request_text_loop this net method path (Z.of_nat k + 1) (Some e)
          (log ++ backoff_events (Z.of_nat k)
               ++ [fetch_of_requestText this method path])%list =
        ((log ++ expected_log (fetch_of_requestText this method path) k (S n))%list,
         exhausted (if Z.of_nat k + 1 <=? maxRetries this
                    then Some (recorded_error this method path (net (maxRetries this)))
                    else Some e))).
    { intros e. replace (Z.of_nat k + 1) with (Z.of_nat (S k)) by lia.
      rewrite IH; [|lia|intros i Hi; apply Hret; lia].
      rewrite backoff_events_nat. simpl expected_log.
      now rewrite <- !app_assoc. }
    assert (Hlast : (Z.of_nat k + 1 <=? maxRetries this) = false ->
                    maxRetries this = Z.of_nat k).
    { intros E. apply Z.leb_gt in E. lia. }
    destruct (net (Z.of_nat k)) as [cause err|res] eqn:Enet; simpl in Hk.
    + rewrite Hnext. f_equal.
      destruct (Z.of_nat k + 1 <=? maxRetries this) eqn:E; [reflexivity|].
      rewrite (Hlast eq_refl), Enet. reflexivity.
    + apply Z.leb_le in Hk.
      destruct (Z.leb_spec 500 (status res)); [|lia].
      rewrite Hnext. f_equal.
      destruct (Z.of_nat k + 1 <=? maxRetries this) eqn:E; [reflexivity|].
      rewrite (Hlast eq_refl), Enet. reflexivity.
Qed.

Lemma request_text_loop_log this net method path (n : nat) :
  forall (k : nat) lastError log,
    n = Z.to_nat (maxRetries this + 1 - Z.of_nat k) ->
    exists m : nat,
      (m <= n)%nat /\ (n <> O -> m <> O) /\
      fst (request_text_loop this net method path (Z.of_nat k) lastError log) =
      (log ++ expected_log (fetch_of_requestText this method path) k m)%list.
Proof.
  induction n as [|n IH]; intros k lastError log Hn;
    rewrite request_text_loop_step.
  - destruct (Z.leb_spec (Z.of_nat k) (maxRetries this)); [lia|].
    exists O. simpl. now rewrite app_nil_r.
  - destruct (Z.leb_spec (Z.of_nat k) (maxRetries this)) as [Hle|]; [|lia].
    cbv zeta.
    assert (Hstop :
      (log ++ backoff_events (Z.of_nat k)
           ++ [fetch_of_requestText this method path])%list =
      (log ++ expected_log (fetch_of_requestText this method path) k 1)%list).
    { rewrite backoff_events_nat. reflexivity. }
    assert (Hnext :
      forall e, exists m : nat,
        (m <= S n)%nat /\ (S n <> O -> m <> O) /\
        fst (request_text_loop this net method path (Z.of_nat k + 1) (Some e)
               (log ++ backoff_events (Z.of_nat k)
                    ++ [fetch_of_requestText this method path])%list) =
        (log ++ expected_log (fetch_of_requestText this method path) k m)%list).
    { intros e. replace (Z.of_nat k + 1) with (Z.of_nat (S k)) by lia.
      destruct (IH (S k) (Some e)
                  (log ++ backoff_events (Z.of_nat k)
                       ++ [fetch_of_requestText this method path])%list
                  ltac:(lia)) as [m [Hm [_ Hlog]]].
      exists (S m). repeat split; [lia | discriminate |].
      rewrite Hlog, backoff_events_nat. simpl expected_log.
      now rewrite <- !app_assoc. }
    destruct (net (Z.of_nat k)) as [cause err|res]; [apply Hnext|].
    destruct (500 <=? status res); [apply Hnext|].
    destruct (400 <=? status res);
      exists 1%nat; (repeat split; [lia | discriminate | exact Hstop]).
Qed.

(** *** The shape of a log of attempts *)

Lemma attempts_made_expected_log (call : event) (k n : nat) :
  is_fetch call = true ->
  attempts_made (expected_log call k n) = Z.of_nat n.
Proof.
  intros Hcall. unfold attempts_made. f_equal.
  revert k; induction n as [|n IH]; intros k; [reflexivity|].
  simpl expected_log. rewrite filter_app. simpl filter. rewrite Hcall.
  destruct k; simpl; now rewrite IH.
Qed.

Lemma sleeps_expected_log_retries (call : event) (k n : nat) :
  is_fetch call = true ->
  sleeps (expected_log call (S k) n) =
  map (fun j => 1000 * 2 ^ Z.of_nat j) (seq k n).
Proof.
  intros Hcall. revert k; induction n as [|n IH]; intros k; [reflexivity|].
  simpl. destruct call; [discriminate|]. now rewrite IH.
Qed.

(** The delays of [n] attempts from attempt 0 on: none for the first call,
    then 1000, 2000, 4000, ... *)
Lemma sleeps_expected_log (call : event) (n : nat) :
  is_fetch call = true ->
  sleeps (expected_log call 0 n) =
  map (fun j => 1000 * 2 ^ Z.of_nat j) (seq 0 (Nat.pred n)).
Proof.
  intros Hcall. destruct n as [|n]; [reflexivity|].
  simpl. destruct call eqn:E; [discriminate|].
  rewrite <- E. apply sleeps_expected_log_retries. now rewrite E.
Qed.

Lemma fetches_of_expected_log (call : event) (k n : nat) (e : event) :
  In e (expected_log call k n) -> is_fetch e = true -> e = call.
Proof.
  revert k; induction n as [|n IH]; intros k; [contradiction|].
  simpl. intros Hin Hf. apply in_app_or in Hin. destruct Hin as [Hin|[Hin|Hin]].
  - destruct k; [contradiction|]. destruct Hin as [<-|[]]. discriminate.
  - now symmetry.
  - eapply IH; eassumption.
Qed.

(** *** The two invocations as a whole *)

Lemma _request_log this net method path body :
  exists m : nat,
    Z.of_nat m <= Z.max 0 (maxRetries this + 1) /\
    (0 <= maxRetries this -> m <> O) /\
    fst (_request this net method path body) =
    expected_log (fetch_of_request this method path body) 0 m.
Proof.
  destruct (request_loop_log this net method path body _ 0 None [] eq_refl)
    as [m [Hm [Hpos Hlog]]].
  exists m. repeat split.
  - lia.
  - intros H. apply Hpos. lia.
  - exact Hlog.
Qed.

Lemma _requestText_log this net method path :
  exists m : nat,
    Z.of_nat m <= Z.max 0 (maxRetries this + 1) /\
    (0 <= maxRetries this -> m <> O) /\
    fst (_requestText this net method path) =
    expected_log (fetch_of_requestText this method path) 0 m.
Proof.
  destruct (request_text_loop_log this net method path _ 0 None [] eq_refl)
    as [m [Hm [Hpos Hlog]]].
  exists m. repeat split.
  - lia.
  - intros H. apply Hpos. lia.
  - exact Hlog.
Qed.

Lemma _request_exhausts this net method path body :
  (forall i, 0 <= i <= maxRetries this -> retryable (net i) = true) ->
  _request this net method path body =
  (expected_log (fetch_of_request this method path body) 0
     (Z.to_nat (maxRetries this + 1)),
   exhausted (if 0 <=? maxRetries this
              then Some (recorded_error this method path (net (maxRetries this)))
              else None)).
Proof.
  intros Hret. unfold _request.
  pose proof (request_loop_exhausts this net method path body
                (Z.to_nat (maxRetries this + 1)) 0 None []) as H.
  change (Z.of_nat 0) with 0 in H. rewrite H; [reflexivity | | exact Hret].
  f_equal. lia.
Qed.

Lemma _requestText_exhausts this net method path :
  (forall i, 0 <= i <= maxRetries this -> retryable (net i) = true) ->
  _requestText this net method path =
  (expected_log (fetch_of_requestText this method path) 0
     (Z.to_nat (maxRetries this + 1)),
   exhausted (if 0 <=? maxRetries this
              then Some (recorded_error this method path (net (maxRetries this)))
              else None)).
Proof.
  intros Hret. unfold _requestText.
  pose proof (request_text_loop_exhausts this net method path
                (Z.to_nat (maxRetries this + 1)) 0 None []) as H.
  change (Z.of_nat 0) with 0 in H. rewrite H; [reflexivity | | exact Hret].
  f_equal. lia.
Qed.

(** A first response that is not retried ends the invocation at once. *)
Lemma _request_first_response this net method path body res :
  0 <= maxRetries this ->
  net 0 = Resolves res ->
  (500 <=? status res) = false ->
  _request this net method path body =
  ([fetch_of_request this method path body],
   if status res =? 402 then payment_required res
   else if 400 <=? status res then Threw (ThrownNetwork (client_error res))
   else match json_body res with
        | Some payload => Returned payload
        | None => Threw ThrownByBodyReader
        end).
Proof.
  intros Hmax Hnet Hst. unfold _request. rewrite request_loop_step.
  destruct (Z.leb_spec 0 (maxRetries this)); [|lia].
  cbv zeta. rewrite Hnet, Hst. simpl.
  destruct (status res =? 402); [reflexivity|].
  destruct (400 <=? status res); reflexivity.
Qed.

Lemma _requestText_first_response this net method path res :
  0 <= maxRetries this ->
  net 0 = Resolves res ->
  (500 <=? status res) = false ->
  _requestText this net method path =
  ([fetch_of_requestText this method path],
   if 400 <=? status res then Threw (ThrownNetwork (client_error res))
   else match text_body res with
        | Some text => Returned text
        | None => Threw ThrownByBodyReader
        end).
Proof.
  intros Hmax Hnet Hst. unfold _requestText. rewrite request_text_loop_step.
  destruct (Z.leb_spec 0 (maxRetries this)); [|lia].
  cbv zeta. rewrite Hnet, Hst. simpl.
  destruct (400 <=? status res); reflexivity.
Qed.

(* ===================================================================== *)
(** ** Retry budget, exhaustion and backoff *)
(* ===================================================================== *)

(** C2: for every [maxRetries = n >= 0], an invocation of [_request] whose
    every attempt is answered with status 503 makes exactly [n + 1] attempts
    and then throws a [NetworkError] whose [statusCode] is 503. *)
Theorem request_persistent_503 (n : Z) this net method path body :
  0 <= n ->
  maxRetries this = n ->
  (forall i, 0 <= i <= n -> exists res, net i = Resolves res /\ status res = 503) ->
  attempts_made (fst (_request this net method path body)) = n + 1 /\
  exists e,
    snd (_request this net method path body) = Threw (ThrownNetwork e) /\
    NetworkError.statusCode e = Some 503.
Proof.
  intros Hn Hmax Hnet.
  assert (Hret : forall i, 0 <= i <= maxRetries this -> retryable (net i) = true).
  { intros i Hi. rewrite Hmax in Hi. destruct (Hnet i Hi) as [res [-> Hst]].
    simpl. now rewrite Hst. }
  rewrite (_request_exhausts _ _ _ _ _ Hret). simpl fst. simpl snd. split.
  - rewrite attempts_made_expected_log; [lia | reflexivity].
  - destruct (Z.leb_spec 0 (maxRetries this)); [|lia].
    rewrite Hmax. destruct (Hnet n ltac:(lia)) as [res [-> Hst]].
    exists (server_error res). split; [reflexivity|].
    simpl. now rewrite Hst.
Qed.

Lemma request_persistent_503_witness :
  let this := constructor {| opt_baseUrl := None; opt_timeoutMs := None;
                             opt_maxRetries := Some 2 |} in
  let net := fun _ : Z =>
    Resolves {| status := 503; statusText := "Service Unavailable";
                json_body := None; text_body := Some EmptyString |} in
  attempts_made (fst (_request this net GET "/health" None)) = 3 /\
  exists e,
    snd (_request this net GET "/health" None) = Threw (ThrownNetwork e) /\
    NetworkError.statusCode e = Some 503.
Proof.
  intros this net.
  apply (request_persistent_503 2 this net GET "/health" None).
  - lia.
  - reflexivity.
  - intros i _. eexists. split; reflexivity.
Defined.

(** C3: when every attempt of [_request] or [_requestText] is retryable, the
    invocation throws exactly the [NetworkError] recorded for the last
    attempt, without a [statusCode] when that attempt got no response and
    with the HTTP status when it got a 5xx; when [maxRetries < 0] the loop
    body never runs, nothing is recorded, and the error thrown is the
    generic 'Request failed after retries' one. *)
Theorem exhaustion_throws_last_recorded this net method path body :
  (forall i, 0 <= i <= maxRetries this -> retryable (net i) = true) ->
  exists e,
    snd (_request this net method path body) = Threw (ThrownNetwork e) /\
    snd (_requestText this net method path) = Threw (ThrownNetwork e) /\
    (0 <= maxRetries this ->
     match net (maxRetries this) with
     | Rejects _ err =>
         e = transport_error this method path err /\
         NetworkError.statusCode e = None
     | Resolves res =>
         e = server_error res /\
         NetworkError.statusCode e = Some (status res)
     end) /\
    (maxRetries this < 0 ->
     e = NetworkError.new "Request failed after retries" None /\
     fst (_request this net method path body) = [] /\
     fst (_requestText this net method path) = []).
Proof.
  intros Hret.
  rewrite (_request_exhausts _ _ _ _ _ Hret), (_requestText_exhausts _ _ _ _ Hret).
  simpl fst. simpl snd.
  destruct (Z.leb_spec 0 (maxRetries this)) as [Hle|Hlt].
  - exists (recorded_error this method path (net (maxRetries this))).
    split; [reflexivity|]. split; [reflexivity|]. split; [|lia].
    intros _. destruct (net (maxRetries this)); split; reflexivity.
  - exists (NetworkError.new "Request failed after retries" None).
    split; [reflexivity|]. split; [reflexivity|]. split; [lia|].
    intros _. replace (Z.to_nat (maxRetries this + 1)) with O by lia.
    repeat split.
Qed.

Lemma exhaustion_throws_last_recorded_witness :
  let this := constructor {| opt_baseUrl := None; opt_timeoutMs := None;
                             opt_maxRetries := Some 1 |} in
  let net := fun i : Z =>
    if i =? 0
    then Resolves {| status := 502; statusText := "Bad Gateway";
                     json_body := None; text_body := None |}
    else Rejects DnsFailure (RejectedError "fetch failed") in
  exists e,
    snd (_request this net GET "/health" None) = Threw (ThrownNetwork e) /\
    snd (_requestText this net GET "/health") = Threw (ThrownNetwork e) /\
    (0 <= maxRetries this ->
     match net (maxRetries this) with
     | Rejects _ err =>
         e = transport_error this GET "/health" err /\
         NetworkError.statusCode e = None
     | Resolves res =>
         e = server_error res /\
         NetworkError.statusCode e = Some (status res)
     end) /\
    (maxRetries this < 0 ->
     e = NetworkError.new "Request failed after retries" None /\
     fst (_request this net GET "/health" None) = [] /\
     fst (_requestText this net GET "/health") = []).
Proof.
  intros this net.
  apply (exhaustion_throws_last_recorded this net GET "/health" None).
  intros i Hi. change (maxRetries this) with 1 in Hi.
  assert (Hcases : i = 0 \/ i = 1) by lia.
  destruct Hcases as [-> | ->]; reflexivity.
Defined.

(* ===================================================================== *)
(** ** Status 402 *)
(* ===================================================================== *)

(** X12: the 402 branch of [_request] on a body that is not [null]: one
    attempt, and when the message can be rendered the error thrown carries
    the [accepts] array of the body, or the empty list, and the body as
    [rawBody]. *)
Lemma request_402_carries_accepts this net method path body res e :
  0 <= maxRetries this ->
  net 0 = Resolves res ->
  status res = 402 ->
  let raw := default_to (json_body res) (JObj []) in
  let accepts := match raw with
                 | JObj props =>
                     match own_property props "accepts" with
                     | Some (JArr items) => items
                     | _ => []
                     end
                 | _ => []
                 end in
  raw <> JNull ->
  PaymentRequiredError.new accepts raw = Normal e ->
  _request this net method path body =
    ([fetch_of_request this method path body], Threw (ThrownPaymentRequired e)) /\
  PaymentRequiredError.accepts e = accepts /\
  PaymentRequiredError.rawBody e = raw.
Proof.
  intros Hmax Hnet Hst raw accepts Hraw Hnew.
  rewrite (_request_first_response this net method path body res Hmax Hnet)
    by (rewrite Hst; reflexivity).
  rewrite Hst. simpl. unfold payment_required. fold raw.
  assert (Hacc : property raw f_accepts = Normal
                   (match raw with
                    | JObj props => own_property props "accepts"
                    | _ => None
                    end)).
  { destruct raw; try reflexivity. contradiction. }
  rewrite Hacc. simpl.
  assert (Heq : match match raw with
                      | JObj props => own_property props "accepts"
                      | _ => None
                      end with
                | Some (JArr items) => items
                | _ => []
                end = accepts).
  { unfold accepts. destruct raw; reflexivity. }
  rewrite Heq, Hnew. simpl. split; [reflexivity|].
  unfold PaymentRequiredError.new in Hnew.
  destruct (ToString _); [|discriminate].
  destruct (ToString _); [|discriminate].
  injection Hnew as <-. split; reflexivity.
Qed.

(** C1, on the code: [_requestText] has no 402 branch.  A first response
    with status 402 falls into the 4xx branch and the invocation throws a
    [NetworkError] with [statusCode] 402, where [_request] throws a
    [PaymentRequiredError]. *)
Theorem requestText_402_throws_network_error this net method path res :
  0 <= maxRetries this ->
  net 0 = Resolves res ->
  status res = 402 ->
  _requestText this net method path =
    ([fetch_of_requestText this method path],
     Threw (ThrownNetwork
              (NetworkError.new ("HTTP 402: " ++ error_text res) (Some 402)))).
Proof.
  intros Hmax Hnet Hst.
  rewrite (_requestText_first_response this net method path res Hmax Hnet)
    by (rewrite Hst; reflexivity).
  unfold client_error. rewrite Hst. reflexivity.
Qed.

Lemma requestText_402_throws_network_error_witness :
  let this := constructor {| opt_baseUrl := None; opt_timeoutMs := None;
                             opt_maxRetries := None |} in
  let res := {| status := 402; statusText := "Payment Required";
                json_body := Some (JObj [("accepts", JArr [])]);
                text_body := Some "payment required" |} in
  _requestText this (fun _ => Resolves res) GET "/v1/badge/0xabc.svg" =
    ([Fetch "https://djd-agent-score.fly.dev/v1/badge/0xabc.svg" GET false None],
     Threw (ThrownNetwork
              (NetworkError.new "HTTP 402: payment required" (Some 402)))).
Proof.
  intros this res.
  apply (requestText_402_throws_network_error this (fun _ => Resolves res)
           GET "/v1/badge/0xabc.svg" res).
  - vm_compute. discriminate.
  - reflexivity.
  - reflexivity.
Defined.

(** C4, on the code: a 402 whose body parses to [null] is not caught by the
    fallback for an unparseable body; reading [raw.accepts] raises a
    [TypeError], which the invocation throws after its single attempt
    instead of a [PaymentRequiredError]. *)
Theorem request_402_null_body_throws_TypeError this net method path body res :
  0 <= maxRetries this ->
  net 0 = Resolves res ->
  status res = 402 ->
  json_body res = Some JNull ->
  _request this net method path body =
    ([fetch_of_request this method path body],
     Threw (ThrownTypeError NullPropertyRead)).
Proof.
  intros Hmax Hnet Hst Hbody.
  rewrite (_request_first_response this net method path body res Hmax Hnet)
    by (rewrite Hst; reflexivity).
  rewrite Hst. simpl. unfold payment_required. rewrite Hbody. reflexivity.
Qed.

Lemma request_402_null_body_throws_TypeError_witness :
  let this := constructor {| opt_baseUrl := None; opt_timeoutMs := None;
                             opt_maxRetries := None |} in
  let res := {| status := 402; statusText := "Payment Required";
                json_body := Some JNull; text_body := Some "null" |} in
  _request this (fun _ => Resolves res) GET "/v1/score/full?wallet=0xabc" None =
    ([Fetch "https://djd-agent-score.fly.dev/v1/score/full?wallet=0xabc" GET false None],
     Threw (ThrownTypeError NullPropertyRead)).
Proof.
  intros this res.
  apply (request_402_null_body_throws_TypeError this (fun _ => Resolves res)
           GET "/v1/score/full?wallet=0xabc" None res).
  - vm_compute. discriminate.
  - reflexivity.
  - reflexivity.
  - reflexivity.
Defined.

(* ===================================================================== *)
(** ** The gating helpers *)
(* ===================================================================== *)

Section Gating.

Variable encodeURIComponent : string -> string.

(** X22: [shouldTransact] answers [true] exactly for the recommendation
    ["proceed"]. *)
Lemma shouldTransact_iff_proceed this net wallet log data s :
  getBasicScore encodeURIComponent this net wallet = (log, Returned data) ->
  property data f_recommendation = Normal (Some (JStr s)) ->
  exists b,
    shouldTransact encodeURIComponent this net wallet = (log, Returned b) /\
    (b = true <-> s = "proceed").
Proof.
  intros Hget Hrec. unfold shouldTransact. rewrite Hget, Hrec. simpl.
  eexists. split; [reflexivity|]. apply String.eqb_eq.
Qed.

(** X23: [gateTransaction] on the four known recommendations, and on every
    other string that does not name a member of [Object.prototype]:
    "proceed" and "proceed_with_caution" are approved under their own
    name, "deny" and "block" are refused as [blocked], any other such
    string is refused as [unknown_recommendation]. *)
Lemma gateTransaction_mapping this net wallet log data s :
  getBasicScore encodeURIComponent this net wallet = (log, Returned data) ->
  property data f_recommendation = Normal (Some (JStr s)) ->
  existsb (String.eqb s) Object_prototype_keys = false ->
  exists g,
    gateTransaction encodeURIComponent this net wallet = (log, Returned g) /\
    (s = "proceed" -> approved g = true /\ reason g = Reason proceed) /\
    (s = "proceed_with_caution" ->
     approved g = true /\ reason g = Reason proceed_with_caution) /\
    (s = "deny" \/ s = "block" -> approved g = false /\ reason g = Reason blocked) /\
    (s <> "proceed" -> s <> "proceed_with_caution" -> s <> "deny" -> s <> "block" ->
     approved g = false /\ reason g = Reason unknown_recommendation).
Proof.
  intros Hget Hrec Hproto. unfold gateTransaction. rewrite Hget.
  assert (Hobj : exists props, data = JObj props).
  { destruct data; try discriminate. eexists; reflexivity. }
  destruct Hobj as [props ->]. simpl in Hrec. injection Hrec as Hrec.
  cbn [property try_eval field_name]. rewrite !Hrec. cbn [ToPropertyKey ToString try_eval].
  eexists. split; [reflexivity|]. cbn [approved reason].
  split; [intros ->; split; reflexivity|].
  split; [intros ->; split; reflexivity|].
  split; [intros [-> | ->]; split; reflexivity|].
  intros H1 H2 H3 H4.
  assert (Hnone : KNOWN_REASONS_get s = None).
  { unfold KNOWN_REASONS_get, KNOWN_REASONS. cbn [assoc].
    destruct (String.eqb_spec "proceed" s); [congruence|].
    destruct (String.eqb_spec "proceed_with_caution" s); [congruence|].
    destruct (String.eqb_spec "deny" s); [congruence|].
    destruct (String.eqb_spec "block" s); [congruence|].
    now rewrite Hproto. }
  rewrite Hnone. split; reflexivity.
Qed.

(** C6, on the code: [KNOWN_REASONS] is an object literal, so a
    recommendation that names a member of [Object.prototype] is found
    there; the reason returned is that member, not
    ["unknown_recommendation"]. *)
Theorem gateTransaction_prototype_key this net wallet log data key :
  getBasicScore encodeURIComponent this net wallet = (log, Returned data) ->
  property data f_recommendation = Normal (Some (JStr key)) ->
  In key Object_prototype_keys ->
  exists g,
    gateTransaction encodeURIComponent this net wallet = (log, Returned g) /\
    reason g = ObjectPrototypeMember key /\
    reason g <> Reason unknown_recommendation /\
    approved g = false.
Proof.
  intros Hget Hrec Hin. unfold gateTransaction. rewrite Hget.
  assert (Hobj : exists props, data = JObj props).
  { destruct data; try discriminate. eexists; reflexivity. }
  destruct Hobj as [props ->]. simpl in Hrec. injection Hrec as Hrec.
  cbn [property try_eval field_name]. rewrite !Hrec. cbn [ToPropertyKey ToString try_eval].
  eexists. split; [reflexivity|]. cbn [approved reason].
  assert (Hget' : KNOWN_REASONS_get key = Some (ObjectPrototypeMember key)).
  { simpl in Hin.
    repeat (destruct Hin as [<-|Hin]; [reflexivity|]). contradiction. }
  rewrite Hget'. simpl. repeat split. discriminate.
Qed.

End Gating.

Lemma gateTransaction_prototype_key_witness :
  let this := constructor {| opt_baseUrl := None; opt_timeoutMs := None;
                             opt_maxRetries := None |} in
  let data := JObj [("wallet", JStr "0xabc"); ("score", JNum "59");
                    ("recommendation", JStr "constructor")] in
  let net := fun _ : Z =>
    Resolves {| status := 200; statusText := "OK";
                json_body := Some data; text_body := None |} in
  exists g,
    gateTransaction (fun s => s) this net "0xabc" =
      ([Fetch "https://djd-agent-score.fly.dev/v1/score/basic?wallet=0xabc"
          GET false None], Returned g) /\
    reason g = ObjectPrototypeMember "constructor" /\
    reason g <> Reason unknown_recommendation /\
    approved g = false.
Proof.
  intros this data net.
  apply (gateTransaction_prototype_key (fun s => s) this net "0xabc" _ data
           "constructor").
  - vm_compute. reflexivity.
  - reflexivity.
  - simpl. tauto.
Defined.

(* ===================================================================== *)
(** ** The message of a transport failure *)
(* ===================================================================== *)

(** The [catch] block words its error by the text of the rejection alone. *)
Lemma transport_error_message this method path err :
  NetworkError.statusCode (transport_error this method path err) = None /\
  ((exists before after, rejection_message err = before ++ "abort" ++ after) ->
   NetworkError.message (transport_error this method path err) =
   "Request timed out after " ++ show_Z (timeoutMs this) ++ "ms: "
   ++ Method_text method ++ " " ++ path) /\
  (~ (exists before after, rejection_message err = before ++ "abort" ++ after) ->
   NetworkError.message (transport_error this method path err) =
   "Network error: " ++ rejection_message err).
Proof.
  unfold transport_error. fold (rejection_message err).
  split; [reflexivity|].
  destruct (includes (rejection_message err) "abort") eqn:E.
  - apply includes_iff in E. split; [reflexivity | contradiction].
  - split; [|reflexivity].
    intros H. apply includes_iff in H. congruence.
Qed.

(** C7, as stated, fails: a connection that was lost, with no timeout
    involved, is recorded with the timed-out wording when the text of its
    error happens to contain "abort". *)
Lemma lost_connection_reported_as_timeout :
  let this := constructor {| opt_baseUrl := None; opt_timeoutMs := None;
                             opt_maxRetries := Some 0 |} in
  let err := RejectedError "Software caused connection abort" in
  snd (_request this (fun _ => Rejects ConnectionLost err) GET "/health" None) =
    Threw (ThrownNetwork
             (NetworkError.new "Request timed out after 10000ms: GET /health" None)) /\
  message_by_cause this GET "/health" ConnectionLost err =
    "Network error: Software caused connection abort" /\
  NetworkError.message
    (recorded_error this GET "/health" (Rejects ConnectionLost err)) <>
  message_by_cause this GET "/health" ConnectionLost err.
Proof.
  intros this err. split; [|split].
  - vm_compute. reflexivity.
  - reflexivity.
  - vm_compute. discriminate.
Qed.

(** C7, amended: the error recorded for an attempt of [_request] or
    [_requestText] that got no response has no [statusCode]; its message is
    "Request timed out after <timeout>ms: <method> <path>" exactly when the
    message of the caught error contains "abort", whatever the cause of the
    failure, and "Network error: <detail>" otherwise, where <detail> is the
    message of the caught error, or "Unknown network error" when the caught
    value is not an [Error].  It is the error thrown when that attempt is
    the last one of an exhausted invocation. *)
Theorem transport_failure_message this net method path body cause err :
  0 <= maxRetries this ->
  (forall i, 0 <= i <= maxRetries this -> retryable (net i) = true) ->
  net (maxRetries this) = Rejects cause err ->
  exists e,
    recorded_error this method path (Rejects cause err) = e /\
    snd (_request this net method path body) = Threw (ThrownNetwork e) /\
    snd (_requestText this net method path) = Threw (ThrownNetwork e) /\
    NetworkError.statusCode e = None /\
    ((exists before after, rejection_message err = before ++ "abort" ++ after) ->
     NetworkError.message e =
     "Request timed out after " ++ show_Z (timeoutMs this) ++ "ms: "
     ++ Method_text method ++ " " ++ path) /\
    (~ (exists before after, rejection_message err = before ++ "abort" ++ after) ->
     NetworkError.message e = "Network error: " ++ rejection_message err).
Proof.
  intros Hmax Hret Hnet.
  exists (transport_error this method path err).
  rewrite (_request_exhausts _ _ _ _ _ Hret), (_requestText_exhausts _ _ _ _ Hret).
  simpl fst. simpl snd.
  destruct (Z.leb_spec 0 (maxRetries this)); [|lia].
  rewrite Hnet. simpl recorded_error.
  split; [reflexivity|]. split; [reflexivity|]. split; [reflexivity|].
  apply transport_error_message.
Qed.

Lemma transport_failure_message_witness :
  let this := constructor {| opt_baseUrl := None; opt_timeoutMs := Some 2000;
                             opt_maxRetries := Some 1 |} in
  let err := RejectedError "This operation was aborted" in
  let net := fun _ : Z => Rejects TimeoutElapsed err in
  exists e,
    recorded_error this GET "/health" (Rejects TimeoutElapsed err) = e /\
    snd (_request this net GET "/health" None) = Threw (ThrownNetwork e) /\
    snd (_requestText this net GET "/health") = Threw (ThrownNetwork e) /\
    NetworkError.statusCode e = None /\
    ((exists before after, rejection_message err = before ++ "abort" ++ after) ->
     NetworkError.message e =
     "Request timed out after " ++ show_Z (timeoutMs this) ++ "ms: "
     ++ Method_text GET ++ " " ++ "/health") /\
    (~ (exists before after, rejection_message err = before ++ "abort" ++ after) ->
     NetworkError.message e = "Network error: " ++ rejection_message err).
Proof.
  intros this err net.
  apply (transport_failure_message this net GET "/health" None TimeoutElapsed err).
  - vm_compute. discriminate.
  - intros i _. reflexivity.
  - reflexivity.
Defined.

(* ===================================================================== *)
(** ** The request URL *)
(* ===================================================================== *)

(** C8: for a [baseUrl] that is an origin followed by one or more slashes
    and a path that begins with a single slash, the client keeps the origin
    without any trailing slash, and every call of [fetch] made by a request
    is for the origin concatenated with the path: exactly one slash stands
    between the origin and the rest of the path. *)
Theorem request_url_has_one_slash origin slashes rest timeout retries net method body :
  no_trailing_slash origin = true ->
  only_slashes slashes = true ->
  slashes <> EmptyString ->
  String.prefix "/" rest = false ->
  let this := constructor {| opt_baseUrl := Some (origin ++ slashes);
                             opt_timeoutMs := timeout;
                             opt_maxRetries := retries |} in
  let path := "/" ++ rest in
  baseUrl this = origin /\
  (forall e, In e (fst (_request this net method path body)) -> is_fetch e = true ->
             e = Fetch (origin ++ "/" ++ rest) method
                   (match body with Some _ => true | None => false end) body) /\
  (forall e, In e (fst (_requestText this net method path)) -> is_fetch e = true ->
             e = Fetch (origin ++ "/" ++ rest) method false None) /\
  (0 <= maxRetries this ->
   exists e1 e2, In e1 (fst (_request this net method path body)) /\ is_fetch e1 = true /\
                 In e2 (fst (_requestText this net method path)) /\ is_fetch e2 = true).
Proof.
  intros Ho Hs _ _ this path.
  assert (Hbase : baseUrl this = origin).
  { simpl. now apply strip_trailing_slashes_app. }
  split; [exact Hbase|].
  destruct (_request_log this net method path body) as [m [_ [Hm Hlog]]].
  destruct (_requestText_log this net method path) as [m' [_ [Hm' Hlog']]].
  rewrite Hlog, Hlog'. unfold fetch_of_request, fetch_of_requestText.
  rewrite Hbase. fold path.
  split; [|split].
  - intros e Hin Hf. eapply fetches_of_expected_log; eassumption.
  - intros e Hin Hf. eapply fetches_of_expected_log; eassumption.
  - intros Hmax. specialize (Hm Hmax). specialize (Hm' Hmax).
    destruct m as [|m]; [contradiction|]. destruct m' as [|m']; [contradiction|].
    do 2 eexists. simpl.
    split; [left; reflexivity|]. split; [reflexivity|].
    split; [left; reflexivity|]. reflexivity.
Qed.

Lemma request_url_has_one_slash_witness :
  let this := constructor {| opt_baseUrl := Some ("http://localhost:1" ++ "///");
                             opt_timeoutMs := Some 2000;
                             opt_maxRetries := Some 0 |} in
  let net := fun _ : Z => Rejects ConnectionRefused (RejectedError "fetch failed") in
  let path := "/" ++ "health" in
  baseUrl this = "http://localhost:1" /\
  (forall e, In e (fst (_request this net GET path None)) -> is_fetch e = true ->
             e = Fetch ("http://localhost:1" ++ "/" ++ "health") GET false None) /\
  (forall e, In e (fst (_requestText this net GET path)) -> is_fetch e = true ->
             e = Fetch ("http://localhost:1" ++ "/" ++ "health") GET false None) /\
  (0 <= maxRetries this ->
   exists e1 e2, In e1 (fst (_request this net GET path None)) /\ is_fetch e1 = true /\
                 In e2 (fst (_requestText this net GET path)) /\ is_fetch e2 = true).
Proof.
  intros this net path.
  apply (request_url_has_one_slash "http://localhost:1" "///" "health"
           (Some 2000) (Some 0) net GET None).
  - reflexivity.
  - reflexivity.
  - discriminate.
  - reflexivity.
Defined.

(* ===================================================================== *)
(** ** PaymentRequiredError *)
(* ===================================================================== *)

(** The message is built from the renderings of the two fields. *)
Lemma PaymentRequiredError_new_normal accepts rawBody amount asset :
  ToString (PaymentRequiredError.first_option_field accepts f_maxAmountRequired)
    = Some amount ->
  ToString (PaymentRequiredError.first_option_field accepts f_asset) = Some asset ->
  PaymentRequiredError.new accepts rawBody =
  Normal {| PaymentRequiredError.name := "PaymentRequiredError";
            PaymentRequiredError.message :=
              "Payment required: " ++ amount ++ " " ++ asset;
            PaymentRequiredError.statusCode := 402;
            PaymentRequiredError.accepts := accepts;
            PaymentRequiredError.rawBody := rawBody |}.
Proof.
  intros Ha Hb. unfold PaymentRequiredError.new. now rewrite Ha, Hb.
Qed.

(** C9: a constructed [PaymentRequiredError] has [statusCode] 402 and
    carries [accepts] and [rawBody] as they were given; its message is
    "Payment required: <amount> <asset>" with the [maxAmountRequired] and
    the [asset] of the first option, and "unknown" for both when the
    [accepts] list is empty. *)
Theorem PaymentRequiredError_fields accepts rawBody :
  (forall e, PaymentRequiredError.new accepts rawBody = Normal e ->
     PaymentRequiredError.statusCode e = 402 /\
     PaymentRequiredError.accepts e = accepts /\
     PaymentRequiredError.rawBody e = rawBody /\
     exists amount asset,
       ToString (nullish_or (optional_property (nth_error accepts 0) f_maxAmountRequired)
                   (JStr "unknown")) = Some amount /\
       ToString (nullish_or (optional_property (nth_error accepts 0) f_asset)
                   (JStr "unknown")) = Some asset /\
       PaymentRequiredError.message e =
       "Payment required: " ++ amount ++ " " ++ asset) /\
  (accepts = [] ->
   exists e, PaymentRequiredError.new accepts rawBody = Normal e /\
             PaymentRequiredError.message e = "Payment required: unknown unknown") /\
  (forall props rest amount asset,
     accepts = JObj props :: rest ->
     own_property props "maxAmountRequired" = Some (JStr amount) ->
     own_property props "asset" = Some (JStr asset) ->
     exists e, PaymentRequiredError.new accepts rawBody = Normal e /\
               PaymentRequiredError.message e =
               "Payment required: " ++ amount ++ " " ++ asset).
Proof.
  split; [|split].
  - intros e He. unfold PaymentRequiredError.new in He.
    fold (PaymentRequiredError.first_option_field accepts f_maxAmountRequired).
    fold (PaymentRequiredError.first_option_field accepts f_asset).
    destruct (ToString (PaymentRequiredError.first_option_field accepts f_maxAmountRequired))
      as [amount|]; [|discriminate].
    destruct (ToString (PaymentRequiredError.first_option_field accepts f_asset))
      as [asset|]; [|discriminate].
    injection He as <-. repeat split. exists amount, asset. repeat split.
  - intros ->. eexists. split; reflexivity.
  - intros props rest amount asset -> Ha Hb.
    eexists. split.
    + apply PaymentRequiredError_new_normal.
      * unfold PaymentRequiredError.first_option_field. simpl. rewrite Ha. reflexivity.
      * unfold PaymentRequiredError.first_option_field. simpl. rewrite Hb. reflexivity.
    + reflexivity.
Qed.

(** C10: the "unknown" of the message is chosen field by field: when the
    first entry of a non-empty [accepts] list lacks [maxAmountRequired] the
    message reads "Payment required: unknown <asset>", and when it lacks
    [asset] it reads "Payment required: <amount> unknown"; a first entry
    with asset "USDC" and no [maxAmountRequired] gives
    "Payment required: unknown USDC". *)
Theorem PaymentRequiredError_unknown_per_field first rest rawBody :
  (forall asset,
     optional_property (Some first) f_maxAmountRequired = None ->
     optional_property (Some first) f_asset = Some (JStr asset) ->
     exists e, PaymentRequiredError.new (first :: rest) rawBody = Normal e /\
               PaymentRequiredError.message e = "Payment required: unknown " ++ asset) /\
  (forall amount,
     optional_property (Some first) f_maxAmountRequired = Some (JStr amount) ->
     optional_property (Some first) f_asset = None ->
     exists e, PaymentRequiredError.new (first :: rest) rawBody = Normal e /\
               PaymentRequiredError.message e =
               "Payment required: " ++ amount ++ " unknown") /\
  (exists e, PaymentRequiredError.new [JObj [("asset", JStr "USDC")]] rawBody = Normal e /\
             PaymentRequiredError.message e = "Payment required: unknown USDC").
Proof.
  split; [|split].
  - intros asset Ha Hb. eexists. split.
    + apply PaymentRequiredError_new_normal;
        unfold PaymentRequiredError.first_option_field; cbn [nth_error].
      * rewrite Ha. reflexivity.
      * rewrite Hb. reflexivity.
    + reflexivity.
  - intros amount Ha Hb. eexists. split.
    + apply PaymentRequiredError_new_normal;
        unfold PaymentRequiredError.first_option_field; cbn [nth_error].
      * rewrite Ha. reflexivity.
      * rewrite Hb. reflexivity.
    + reflexivity.
  - eexists. split; reflexivity.
Qed.

(* ===================================================================== *)
(** ** Further properties of the engine *)
(* ===================================================================== *)

(** *** Where an invocation settles *)

(** Failed attempts followed by a response that is not a 5xx: the loop
    stops at that response, whatever was recorded before. *)
Lemma request_loop_settles this net method path body (k : nat) res :
  Z.of_nat k <= maxRetries this ->
  net (Z.of_nat k) = Resolves res ->
  (500 <=? status res) = false ->
  forall (d j : nat) lastError log,
    (j + d = k)%nat ->
    (forall i, Z.of_nat j <= i < Z.of_nat k -> retryable (net i) = true) ->
    request_loop this net method path body (Z.of_nat j) lastError log =
    ((log ++ expected_log (fetch_of_request this method path body) j (S d))%list,
     settled_request res).
Proof.
  intros Hk Hnet Hst. induction d as [|d IH]; intros j lastError log Hj Hret;
    rewrite request_loop_step;
    (destruct (Z.leb_spec (Z.of_nat j) (maxRetries this)); [|lia]); cbv zeta.
  - replace j with k by lia. rewrite Hnet, Hst, backoff_events_nat.
    unfold settled_request.
    destruct (status res =? 402); [reflexivity|].
    destruct (400 <=? status res); reflexivity.
  - pose proof (Hret (Z.of_nat j) ltac:(lia)) as Hj'.
    assert (Hnext :
      forall e,
        request_loop this net method path body (Z.of_nat j + 1) (Some e)
          (log ++ backoff_events (Z.of_nat j)
               ++ [fetch_of_request this method path body])%list =
        ((log ++ expected_log (fetch_of_request this method path body) j (S (S d)))%list,
         settled_request res)).
    { intros e. replace (Z.of_nat j + 1) with (Z.of_nat (S j)) by lia.
      rewrite IH; [|lia|intros i Hi; apply Hret; lia].
      rewrite backoff_events_nat.
      change (expected_log (fetch_of_request this method path body) j (S (S d)))
        with ((match j with
               | O => []
               | S j' => [Sleep (1000 * 2 ^ Z.of_nat j')]
               end ++ fetch_of_request this method path body
                   :: expected_log (fetch_of_request this method path body)
                        (S j) (S d))%list).
      now rewrite <- !app_assoc. }
    destruct (net (Z.of_nat j)) as [cause err|res']; simpl in Hj'; [apply Hnext|].
    apply Z.leb_le in Hj'.
    destruct (Z.eqb_spec (status res') 402); [lia|].
    destruct (Z.leb_spec 500 (status res')); [apply Hnext | lia].
Qed.

Lemma request_text_loop_settles this net method path (k : nat) res :
  Z.of_nat k <= maxRetries this ->
  net (Z.of_nat k) = Resolves res ->
  (500 <=? status res) = false ->
  forall (d j : nat) lastError log,
    (j + d = k)%nat ->
    (forall i, Z.of_nat j <= i < Z.of_nat k -> retryable (net i) = true) ->
    request_text_loop this net method path (Z.of_nat j) lastError log =
    ((log ++ expected_log (fetch_of_requestText this method path) j (S d))%list,
     settled_requestText res).
Proof.
  intros Hk Hnet Hst. induction d as [|d IH]; intros j lastError log Hj Hret;
    rewrite request_text_loop_step;
    (destruct (Z.leb_spec (Z.of_nat j) (maxRetries this)); [|lia]); cbv zeta.
  - replace j with k by lia. rewrite Hnet, Hst, backoff_events_nat.
    unfold settled_requestText.
    destruct (400 <=? status res); reflexivity.
  - pose proof (Hret (Z.of_nat j) ltac:(lia)) as Hj'.
    assert (Hnext :
      forall e,
        request_text_loop this net method path (Z.of_nat j + 1) (Some e)
          (log ++ backoff_events (Z.of_nat j)
               ++ [fetch_of_requestText this method path])%list =
        ((log ++ expected_log (fetch_of_requestText this method path) j (S (S d)))%list,
         settled_requestText res)).
    { intros e. replace (Z.of_nat j + 1) with (Z.of_nat (S j)) by lia.
      rewrite IH; [|lia|intros i Hi; apply Hret; lia].
      rewrite backoff_events_nat.
      change (expected_log (fetch_of_requestText this method path) j (S (S d)))
        with ((match j with
               | O => []
               | S j' => [Sleep (1000 * 2 ^ Z.of_nat j')]
               end ++ fetch_of_requestText this method path
                   :: expected_log (fetch_of_requestText this method path)
                        (S j) (S d))%list).
      now rewrite <- !app_assoc. }
    destruct (net (Z.of_nat j)) as [cause err|res']; simpl in Hj'; [apply Hnext|].
    destruct (500 <=? status res'); [apply Hnext | discriminate].
Qed.

Lemma _request_settles this net method path body (k : nat) res :
  Z.of_nat k <= maxRetries this ->
  (forall i, 0 <= i < Z.of_nat k -> retryable (net i) = true) ->
  net (Z.of_nat k) = Resolves res ->
  (500 <=? status res) = false ->
  _request this net method path body =
  (expected_log (fetch_of_request this method path body) 0 (S k), settled_request res).
Proof.
  intros Hk Hret Hnet Hst. unfold _request.
  pose proof (request_loop_settles this net method path body k res Hk Hnet Hst
                k 0%nat None [] eq_refl) as H.
  change (Z.of_nat 0) with 0 in H. now rewrite H.
Qed.

Lemma _requestText_settles this net method path (k : nat) res :
  Z.of_nat k <= maxRetries this ->
  (forall i, 0 <= i < Z.of_nat k -> retryable (net i) = true) ->
  net (Z.of_nat k) = Resolves res ->
  (500 <=? status res) = false ->
  _requestText this net method path =
  (expected_log (fetch_of_requestText this method path) 0 (S k),
   settled_requestText res).
Proof.
  intros Hk Hret Hnet Hst. unfold _requestText.
  pose proof (request_text_loop_settles this net method path k res Hk Hnet Hst
                k 0%nat None [] eq_refl) as H.
  change (Z.of_nat 0) with 0 in H. now rewrite H.
Qed.

(** Among the first [n] exchanges either all are retryable or there is a
    first one that is not. *)
Lemma first_settling_exchange (net : network) (n : nat) :
  (forall i, 0 <= i < Z.of_nat n -> retryable (net i) = true) \/
  exists (k : nat) res,
    (k < n)%nat /\
    (forall i, 0 <= i < Z.of_nat k -> retryable (net i) = true) /\
    net (Z.of_nat k) = Resolves res /\
    (500 <=? status res) = false.
Proof.
  induction n as [|n [Hall | [k [res [Hk H]]]]].
  - left. intros i Hi. lia.
  - destruct (retryable (net (Z.of_nat n))) eqn:E.
    + left. intros i Hi.
      destruct (Z.eq_dec i (Z.of_nat n)) as [->|Hne]; [exact E | apply Hall; lia].
    + right. destruct (net (Z.of_nat n)) as [cause err|res] eqn:Enet; [discriminate|].
      exists n, res. split; [lia|]. split; [exact Hall|]. split; [exact Enet | exact E].
  - right. exists k, res. split; [lia | exact H].
Qed.

(** Every invocation either exhausts its attempts or settles at the first
    response that is not a 5xx. *)
Lemma _request_cases this net method path body :
  ((forall i, 0 <= i <= maxRetries this -> retryable (net i) = true) /\
   _request this net method path body =
   (expected_log (fetch_of_request this method path body) 0
      (Z.to_nat (maxRetries this + 1)),
    exhausted (if 0 <=? maxRetries this
               then Some (recorded_error this method path (net (maxRetries this)))
               else None))) \/
  (exists (k : nat) res,
     Z.of_nat k <= maxRetries this /\
     (forall i, 0 <= i < Z.of_nat k -> retryable (net i) = true) /\
     net (Z.of_nat k) = Resolves res /\
     (500 <=? status res) = false /\
     _request this net method path body =
     (expected_log (fetch_of_request this method path body) 0 (S k),
      settled_request res)).
Proof.
  destruct (first_settling_exchange net (Z.to_nat (maxRetries this + 1)))
    as [Hall | [k [res [Hk [Hret [Hnet Hst]]]]]].
  - left. assert (Hret : forall i, 0 <= i <= maxRetries this -> retryable (net i) = true).
    { intros i Hi. apply Hall. lia. }
    split; [exact Hret | now apply _request_exhausts].
  - right. exists k, res. assert (Hle : Z.of_nat k <= maxRetries this) by lia.
    repeat split; try assumption. now apply _request_settles.
Qed.

Lemma _requestText_cases this net method path :
  ((forall i, 0 <= i <= maxRetries this -> retryable (net i) = true) /\
   _requestText this net method path =
   (expected_log (fetch_of_requestText this method path) 0
      (Z.to_nat (maxRetries this + 1)),
    exhausted (if 0 <=? maxRetries this
               then Some (recorded_error this method path (net (maxRetries this)))
               else None))) \/
  (exists (k : nat) res,
     Z.of_nat k <= maxRetries this /\
     (forall i, 0 <= i < Z.of_nat k -> retryable (net i) = true) /\
     net (Z.of_nat k) = Resolves res /\
     (500 <=? status res) = false /\
     _requestText this net method path =
     (expected_log (fetch_of_requestText this method path) 0 (S k),
      settled_requestText res)).
Proof.
  destruct (first_settling_exchange net (Z.to_nat (maxRetries this + 1)))
    as [Hall | [k [res [Hk [Hret [Hnet Hst]]]]]].
  - left. assert (Hret : forall i, 0 <= i <= maxRetries this -> retryable (net i) = true).
    { intros i Hi. apply Hall. lia. }
    split; [exact Hret | now apply _requestText_exhausts].
  - right. exists k, res. assert (Hle : Z.of_nat k <= maxRetries this) by lia.
    repeat split; try assumption. now apply _requestText_settles.
Qed.

(** *** The backoff schedule *)






(** *** Recovery, client errors and unreadable bodies *)

(** X1: when [k] attempts of [_request] fail in a retryable way and the
    next one, still within the budget, is answered with a status below 400
    and a body that parses, the payload is returned after exactly [k + 1]
    attempts and the delays 1000, 2000, ..., 1000 * 2^(k-1): the failures
    before it leave no trace in the result. *)
Theorem request_recovers_after_failures this net method path body (k : nat) res payload :
  Z.of_nat k <= maxRetries this ->
  (forall i, 0 <= i < Z.of_nat k -> retryable (net i) = true) ->
  net (Z.of_nat k) = Resolves res ->
  status res < 400 ->
  json_body res = Some payload ->
  snd (_request this net method path body) = Returned payload /\
  attempts_made (fst (_request this net method path body)) = Z.of_nat k + 1 /\
  sleeps (fst (_request this net method path body)) =
  map (fun j => 1000 * 2 ^ Z.of_nat j) (seq 0 k).
Proof.
  intros Hk Hret Hnet Hst Hbody.
  rewrite (_request_settles this net method path body k res Hk Hret Hnet)
    by (apply Z.leb_gt; lia).
  cbn [fst snd]. split; [|split].
  - unfold settled_request.
    destruct (Z.eqb_spec (status res) 402); [lia|].
    destruct (Z.leb_spec 400 (status res)); [lia|]. now rewrite Hbody.
  - rewrite attempts_made_expected_log; [lia | reflexivity].
  - rewrite sleeps_expected_log; reflexivity.
Qed.

Lemma request_recovers_after_failures_witness :
  let this := constructor {| opt_baseUrl := None; opt_timeoutMs := None;
                             opt_maxRetries := None |} in
  let res := {| status := 200; statusText := "OK";
                json_body := Some (JObj [("status", JStr "ok")]);
                text_body := None |} in
  let net := fun i : Z =>
    if i =? 0 then Rejects TimeoutElapsed (RejectedError "This operation was aborted")
    else Resolves res in
  snd (_request this net GET "/health" None) = Returned (JObj [("status", JStr "ok")]) /\
  attempts_made (fst (_request this net GET "/health" None)) = Z.of_nat 1 + 1 /\
  sleeps (fst (_request this net GET "/health" None)) =
  map (fun j => 1000 * 2 ^ Z.of_nat j) (seq 0 1).
Proof.
  intros this res net.
  apply (request_recovers_after_failures this net GET "/health" None 1 res).
  - vm_compute. discriminate.
  - intros i Hi. assert (i = 0) as -> by lia. reflexivity.
  - reflexivity.
  - simpl. lia.
  - reflexivity.
Defined.

(** X2: the same recovery for [_requestText], which returns the text of
    the body as it is. *)
Theorem requestText_recovers_after_failures this net method path (k : nat) res text :
  Z.of_nat k <= maxRetries this ->
  (forall i, 0 <= i < Z.of_nat k -> retryable (net i) = true) ->
  net (Z.of_nat k) = Resolves res ->
  status res < 400 ->
  text_body res = Some text ->
  snd (_requestText this net method path) = Returned text /\
  attempts_made (fst (_requestText this net method path)) = Z.of_nat k + 1 /\
  sleeps (fst (_requestText this net method path)) =
  map (fun j => 1000 * 2 ^ Z.of_nat j) (seq 0 k).
Proof.
  intros Hk Hret Hnet Hst Hbody.
  rewrite (_requestText_settles this net method path k res Hk Hret Hnet)
    by (apply Z.leb_gt; lia).
  cbn [fst snd]. split; [|split].
  - unfold settled_requestText.
    destruct (Z.leb_spec 400 (status res)); [lia|]. now rewrite Hbody.
  - rewrite attempts_made_expected_log; [lia | reflexivity].
  - rewrite sleeps_expected_log; reflexivity.
Qed.

Lemma requestText_recovers_after_failures_witness :
  let this := constructor {| opt_baseUrl := None; opt_timeoutMs := None;
                             opt_maxRetries := None |} in
  let res := {| status := 200; statusText := "OK";
                json_body := None; text_body := Some "<svg></svg>" |} in
  let net := fun i : Z =>
    if i <? 2
    then Resolves {| status := 503; statusText := "Service Unavailable";
                     json_body := None; text_body := None |}
    else Resolves res in
  snd (_requestText this net GET "/v1/badge/0xabc.svg") = Returned "<svg></svg>" /\
  attempts_made (fst (_requestText this net GET "/v1/badge/0xabc.svg")) = Z.of_nat 2 + 1 /\
  sleeps (fst (_requestText this net GET "/v1/badge/0xabc.svg")) =
  map (fun j => 1000 * 2 ^ Z.of_nat j) (seq 0 2).
Proof.
  intros this res net.
  apply (requestText_recovers_after_failures this net GET "/v1/badge/0xabc.svg" 2 res).
  - vm_compute. discriminate.
  - intros i Hi. assert (i = 0 \/ i = 1) as [-> | ->] by lia; reflexivity.
  - reflexivity.
  - simpl. lia.
  - reflexivity.
Defined.

(** X3: a response with a status in 400..499 ends the invocation at the
    attempt where it arrives, also when retries remain: the error thrown is
    the [NetworkError] "HTTP <status>: <text or statusText>" with that
    status as [statusCode].  For [_request] the status 402 is excepted. *)
Theorem client_error_is_not_retried this net method path body (k : nat) res :
  Z.of_nat k <= maxRetries this ->
  (forall i, 0 <= i < Z.of_nat k -> retryable (net i) = true) ->
  net (Z.of_nat k) = Resolves res ->
  400 <= status res < 500 ->
  let e := NetworkError.new
             ("HTTP " ++ show_Z (status res) ++ ": "
              ++ or_else (default_to (text_body res) EmptyString) (statusText res))
             (Some (status res)) in
  (status res <> 402 ->
   snd (_request this net method path body) = Threw (ThrownNetwork e)) /\
  snd (_requestText this net method path) = Threw (ThrownNetwork e) /\
  attempts_made (fst (_request this net method path body)) = Z.of_nat k + 1 /\
  attempts_made (fst (_requestText this net method path)) = Z.of_nat k + 1.
Proof.
  intros Hk Hret Hnet Hst e.
  rewrite (_request_settles this net method path body k res Hk Hret Hnet)
    by (apply Z.leb_gt; lia).
  rewrite (_requestText_settles this net method path k res Hk Hret Hnet)
    by (apply Z.leb_gt; lia).
  cbn [fst snd]. unfold settled_request, settled_requestText.
  destruct (Z.leb_spec 400 (status res)); [|lia].
  split; [|split; [reflexivity|]].
  - intros Hne. destruct (Z.eqb_spec (status res) 402); [contradiction | reflexivity].
  - split; (rewrite attempts_made_expected_log; [lia | reflexivity]).
Qed.

Lemma client_error_is_not_retried_witness :
  let this := constructor {| opt_baseUrl := None; opt_timeoutMs := None;
                             opt_maxRetries := None |} in
  let res := {| status := 404; statusText := "Not Found";
                json_body := None; text_body := Some EmptyString |} in
  let net := fun _ : Z => Resolves res in
  let e := NetworkError.new
             ("HTTP " ++ show_Z (status res) ++ ": "
              ++ or_else (default_to (text_body res) EmptyString) (statusText res))
             (Some (status res)) in
  (status res <> 402 ->
   snd (_request this net GET "/v1/nothing" None) = Threw (ThrownNetwork e)) /\
  snd (_requestText this net GET "/v1/nothing") = Threw (ThrownNetwork e) /\
  attempts_made (fst (_request this net GET "/v1/nothing" None)) = Z.of_nat 0 + 1 /\
  attempts_made (fst (_requestText this net GET "/v1/nothing")) = Z.of_nat 0 + 1.
Proof.
  intros this res net.
  apply (client_error_is_not_retried this net GET "/v1/nothing" None 0 res).
  - vm_compute. discriminate.
  - intros i Hi. simpl in Hi. lia.
  - reflexivity.
  - simpl. lia.
Defined.

(** X4: a response with a status below 400 whose body cannot be read (for
    [_request]: read and parsed) is not retried and not turned into a
    [NetworkError]: the rejection of the body reader is thrown as it is,
    at the attempt where the response arrived. *)
Theorem unreadable_success_body_is_thrown this net method path body (k : nat) res :
  Z.of_nat k <= maxRetries this ->
  (forall i, 0 <= i < Z.of_nat k -> retryable (net i) = true) ->
  net (Z.of_nat k) = Resolves res ->
  status res < 400 ->
  (json_body res = None ->
   snd (_request this net method path body) = Threw ThrownByBodyReader /\
   attempts_made (fst (_request this net method path body)) = Z.of_nat k + 1) /\
  (text_body res = None ->
   snd (_requestText this net method path) = Threw ThrownByBodyReader /\
   attempts_made (fst (_requestText this net method path)) = Z.of_nat k + 1).
Proof.
  intros Hk Hret Hnet Hst.
  rewrite (_request_settles this net method path body k res Hk Hret Hnet)
    by (apply Z.leb_gt; lia).
  rewrite (_requestText_settles this net method path k res Hk Hret Hnet)
    by (apply Z.leb_gt; lia).
  cbn [fst snd]. unfold settled_request, settled_requestText.
  destruct (Z.eqb_spec (status res) 402); [lia|].
  destruct (Z.leb_spec 400 (status res)); [lia|].
  split; intros ->; (split; [reflexivity|]);
    (rewrite attempts_made_expected_log; [lia | reflexivity]).
Qed.

Lemma unreadable_success_body_is_thrown_witness :
  let this := constructor {| opt_baseUrl := None; opt_timeoutMs := None;
                             opt_maxRetries := None |} in
  let res := {| status := 200; statusText := "OK";
                json_body := None; text_body := None |} in
  let net := fun _ : Z => Resolves res in
  (json_body res = None ->
   snd (_request this net GET "/health" None) = Threw ThrownByBodyReader /\
   attempts_made (fst (_request this net GET "/health" None)) = Z.of_nat 0 + 1) /\
  (text_body res = None ->
   snd (_requestText this net GET "/health") = Threw ThrownByBodyReader /\
   attempts_made (fst (_requestText this net GET "/health")) = Z.of_nat 0 + 1).
Proof.
  intros this res net.
  apply (unreadable_success_body_is_thrown this net GET "/health" None 0 res).
  - vm_compute. discriminate.
  - intros i Hi. simpl in Hi. lia.
  - reflexivity.
  - simpl. lia.
Defined.

(** *** Budgets *)

Lemma sleeps_length_expected_log (call : event) (m : nat) :
  is_fetch call = true ->
  List.length (sleeps (expected_log call 0 m)) = Nat.pred m.
Proof.
  intros Hcall. rewrite sleeps_expected_log by exact Hcall.
  now rewrite length_map, length_seq.
Qed.

(** X5: whatever the network does, an invocation of [_request] or
    [_requestText] calls [fetch] at most [maxRetries + 1] times, at least
    once when [maxRetries >= 0], and sleeps exactly once between two
    consecutive calls and never otherwise. *)
Theorem attempts_are_bounded this net method path body :
  let request_log := fst (_request this net method path body) in
  let text_log := fst (_requestText this net method path) in
  attempts_made request_log <= Z.max 0 (maxRetries this + 1) /\
  attempts_made text_log <= Z.max 0 (maxRetries this + 1) /\
  (0 <= maxRetries this -> 1 <= attempts_made request_log /\ 1 <= attempts_made text_log) /\
  Z.of_nat (List.length (sleeps request_log)) = Z.max 0 (attempts_made request_log - 1) /\
  Z.of_nat (List.length (sleeps text_log)) = Z.max 0 (attempts_made text_log - 1).
Proof.
  intros request_log text_log. subst request_log text_log.
  destruct (_request_log this net method path body) as [m [Hm [Hpos ->]]].
  destruct (_requestText_log this net method path) as [m' [Hm' [Hpos' ->]]].
  rewrite !attempts_made_expected_log by reflexivity.
  rewrite !sleeps_length_expected_log by reflexivity.
  repeat split; lia.
Qed.

Lemma sum_of_doubling_delays (n : nat) :
  fold_right Z.add 0 (map (fun j => 1000 * 2 ^ Z.of_nat j) (seq 0 n)) =
  1000 * (2 ^ Z.of_nat n - 1).
Proof.
  induction n as [|n IH]; [reflexivity|].
  assert (Hshift : forall (l : list Z) (a : Z),
             fold_right Z.add a l = fold_right Z.add 0 l + a).
  { induction l as [|x l IHl]; intros a; simpl; [lia | rewrite IHl; lia]. }
  rewrite seq_S, map_app, fold_right_app, Hshift, IH.
  cbn [map fold_right Nat.add].
  rewrite Nat2Z.inj_succ, Z.pow_succ_r by lia. lia.
Qed.

Lemma total_sleep_expected_log (call : event) (m : nat) :
  is_fetch call = true ->
  total_sleep (expected_log call 0 m) = 1000 * (2 ^ Z.of_nat (Nat.pred m) - 1).
Proof.
  intros Hcall. unfold total_sleep.
  rewrite sleeps_expected_log by exact Hcall. apply sum_of_doubling_delays.
Qed.

(** X6: the time an invocation spends sleeping between attempts is at most
    [1000 * (2^maxRetries - 1)] milliseconds (7 seconds with the default
    of 3 retries), whatever the network does, and it is exactly that much
    when every attempt fails in a retryable way. *)
Theorem total_backoff_is_bounded this net method path body :
  0 <= maxRetries this ->
  total_sleep (fst (_request this net method path body))
    <= 1000 * (2 ^ maxRetries this - 1) /\
  total_sleep (fst (_requestText this net method path))
    <= 1000 * (2 ^ maxRetries this - 1) /\
  ((forall i, 0 <= i <= maxRetries this -> retryable (net i) = true) ->
   total_sleep (fst (_request this net method path body))
     = 1000 * (2 ^ maxRetries this - 1) /\
   total_sleep (fst (_requestText this net method path))
     = 1000 * (2 ^ maxRetries this - 1)).
Proof.
  intros Hmax.
  assert (Hbound : forall m : nat,
             Z.of_nat m <= Z.max 0 (maxRetries this + 1) ->
             1000 * (2 ^ Z.of_nat (Nat.pred m) - 1) <= 1000 * (2 ^ maxRetries this - 1)).
  { intros m Hm.
    assert (2 ^ Z.of_nat (Nat.pred m) <= 2 ^ maxRetries this)
      by (apply Z.pow_le_mono_r; lia).
    lia. }
  split; [|split].
  - destruct (_request_log this net method path body) as [m [Hm [_ ->]]].
    rewrite total_sleep_expected_log by reflexivity. now apply Hbound.
  - destruct (_requestText_log this net method path) as [m [Hm [_ ->]]].
    rewrite total_sleep_expected_log by reflexivity. now apply Hbound.
  - intros Hret.
    rewrite (_request_exhausts _ _ _ _ _ Hret), (_requestText_exhausts _ _ _ _ Hret).
    cbn [fst]. rewrite !total_sleep_expected_log by reflexivity.
    replace (Z.of_nat (Nat.pred (Z.to_nat (maxRetries this + 1))))
      with (maxRetries this) by lia.
    split; reflexivity.
Qed.

Lemma total_backoff_is_bounded_witness :
  let this := constructor {| opt_baseUrl := None; opt_timeoutMs := None;
                             opt_maxRetries := None |} in
  let net := fun _ : Z => Rejects DnsFailure (RejectedError "fetch failed") in
  total_sleep (fst (_request this net GET "/health" None))
    <= 1000 * (2 ^ maxRetries this - 1) /\
  total_sleep (fst (_requestText this net GET "/health"))
    <= 1000 * (2 ^ maxRetries this - 1) /\
  ((forall i, 0 <= i <= maxRetries this -> retryable (net i) = true) ->
   total_sleep (fst (_request this net GET "/health" None))
     = 1000 * (2 ^ maxRetries this - 1) /\
   total_sleep (fst (_requestText this net GET "/health"))
     = 1000 * (2 ^ maxRetries this - 1)).
Proof.
  intros this net.
  apply (total_backoff_is_bounded this net GET "/health" None).
  vm_compute. discriminate.
Defined.

(** *** Where a result comes from *)

(** The 402 branch throws a [PaymentRequiredError] or a [TypeError] and
    nothing else. *)
Lemma payment_required_cases {A : Type} (res : Response) :
  (exists te, @payment_required A res = Threw (ThrownTypeError te)) \/
  (exists e, @payment_required A res = Threw (ThrownPaymentRequired e) /\
             PaymentRequiredError.statusCode e = 402 /\
             PaymentRequiredError.rawBody e = default_to (json_body res) (JObj [])).
Proof.
  unfold payment_required.
  destruct (property (default_to (json_body res) (JObj [])) f_accepts) as [a|te];
    cbn [try_eval]; [|left; eexists; reflexivity].
  match goal with
  | |- context [PaymentRequiredError.new ?acc ?raw] =>
      destruct (PaymentRequiredError.new acc raw) as [e|te] eqn:E
  end; cbn [try_eval]; [|left; eexists; reflexivity].
  right. exists e. split; [reflexivity|].
  unfold PaymentRequiredError.new in E.
  destruct (ToString _); [|discriminate].
  destruct (ToString _); [|discriminate].
  injection E as <-. split; reflexivity.
Qed.

(** X7: what [_request] returns, and the [PaymentRequiredError] it throws,
    is decided by one response.  A returned payload is the parsed body of a
    response with a status below 400; a [PaymentRequiredError] comes from a
    response with status 402, has [statusCode] 402 and carries the parsed
    body (the empty object when it does not parse) as [rawBody]. *)
Theorem request_result_provenance this net method path body :
  (forall payload,
     snd (_request this net method path body) = Returned payload ->
     exists k res, 0 <= k <= maxRetries this /\ net k = Resolves res /\
                   status res < 400 /\ json_body res = Some payload) /\
  (forall e,
     snd (_request this net method path body) = Threw (ThrownPaymentRequired e) ->
     exists k res, 0 <= k <= maxRetries this /\ net k = Resolves res /\
                   status res = 402 /\
                   PaymentRequiredError.statusCode e = 402 /\
                   PaymentRequiredError.rawBody e = default_to (json_body res) (JObj [])).
Proof.
  destruct (_request_cases this net method path body)
    as [[_ ->] | [k [res [Hk [_ [Hnet [Hst ->]]]]]]]; cbn [snd].
  - unfold exhausted. split; intros x Hx; discriminate.
  - apply Z.leb_gt in Hst. unfold settled_request.
    destruct (Z.eqb_spec (status res) 402) as [H402|H402].
    + destruct (@payment_required_cases json res) as [[te ->] | [e [-> [Hc Hr]]]].
      * split; intros x Hx; discriminate.
      * split; intros x Hx; [discriminate|].
        injection Hx as <-.
        exists (Z.of_nat k), res. repeat split; try assumption; lia.
    + destruct (Z.leb_spec 400 (status res)).
      * split; intros x Hx; discriminate.
      * destruct (json_body res) as [p|] eqn:Ebody.
        -- split; intros x Hx; [|discriminate].
           injection Hx as <-.
           exists (Z.of_nat k), res. repeat split; try assumption; lia.
        -- split; intros x Hx; discriminate.
Qed.

(** X8: a [NetworkError] thrown by [_request] or [_requestText] has no
    [statusCode] or one that is at least 400; one thrown by [_request]
    never has the [statusCode] 402. *)
Theorem network_error_status_codes this net method path body :
  (forall e,
     snd (_request this net method path body) = Threw (ThrownNetwork e) ->
     NetworkError.statusCode e = None \/
     exists c, NetworkError.statusCode e = Some c /\ 400 <= c /\ c <> 402) /\
  (forall e,
     snd (_requestText this net method path) = Threw (ThrownNetwork e) ->
     NetworkError.statusCode e = None \/
     exists c, NetworkError.statusCode e = Some c /\ 400 <= c).
Proof.
  assert (Hexh : forall (A : Type) e,
             (forall i, 0 <= i <= maxRetries this -> retryable (net i) = true) ->
             @exhausted A
               (if 0 <=? maxRetries this
                then Some (recorded_error this method path (net (maxRetries this)))
                else None) = Threw (ThrownNetwork e) ->
             NetworkError.statusCode e = None \/
             exists c, NetworkError.statusCode e = Some c /\ 400 <= c /\ c <> 402).
  { intros A e Hret He. unfold exhausted in He.
    destruct (Z.leb_spec 0 (maxRetries this)) as [Hle|Hlt].
    - pose proof (Hret (maxRetries this) ltac:(lia)) as Hr.
      cbn [default_to] in He. injection He as <-.
      destruct (net (maxRetries this)) as [cause err|res]; [left; reflexivity|].
      simpl in Hr. apply Z.leb_le in Hr.
      right. exists (status res). repeat split; [lia | lia].
    - cbn [default_to] in He. injection He as <-. left. reflexivity. }
  split; intros e.
  - destruct (_request_cases this net method path body)
      as [[Hret ->] | [k [res [Hk [_ [Hnet [Hst ->]]]]]]]; cbn [snd].
    + now apply (Hexh json).
    + unfold settled_request.
      destruct (Z.eqb_spec (status res) 402) as [H402|H402].
      * destruct (@payment_required_cases json res) as [[te ->] | [e' [-> _]]];
          discriminate.
      * destruct (Z.leb_spec 400 (status res)).
        -- intros He. injection He as <-. right. exists (status res).
           repeat split; assumption.
        -- destruct (json_body res); discriminate.
  - destruct (_requestText_cases this net method path)
      as [[Hret ->] | [k [res [Hk [_ [Hnet [Hst ->]]]]]]]; cbn [snd].
    + intros He. destruct (Hexh string e Hret He) as [H | [c [H1 [H2 _]]]];
        [left; exact H | right; exists c; split; assumption].
    + unfold settled_requestText.
      destruct (Z.leb_spec 400 (status res)).
      * intros He. injection He as <-. right. exists (status res).
        split; [reflexivity | assumption].
      * destruct (text_body res); discriminate.
Qed.

(** X9: [_requestText] returns the text of a response with a status below
    400 and never throws a [PaymentRequiredError]. *)
Theorem requestText_result_provenance this net method path :
  (forall text,
     snd (_requestText this net method path) = Returned text ->
     exists k res, 0 <= k <= maxRetries this /\ net k = Resolves res /\
                   status res < 400 /\ text_body res = Some text) /\
  (forall e, snd (_requestText this net method path) <> Threw (ThrownPaymentRequired e)).
Proof.
  destruct (_requestText_cases this net method path)
    as [[_ ->] | [k [res [Hk [_ [Hnet [Hst ->]]]]]]]; cbn [snd].
  - unfold exhausted. split; intros x Hx; discriminate.
  - apply Z.leb_gt in Hst. unfold settled_requestText.
    destruct (Z.leb_spec 400 (status res)).
    + split; intros x Hx; discriminate.
    + destruct (text_body res) as [t|] eqn:Ebody.
      * split; intros x Hx; [|discriminate].
        injection Hx as <-.
        exists (Z.of_nat k), res. repeat split; try assumption; lia.
      * split; intros x Hx; discriminate.
Qed.

(** *** The two variants side by side *)

(** X10: against the same network [_request] and [_requestText] make the
    same number of attempts with the same delays, whatever body
    [_request] sends; without a body their logs are the same. *)
Theorem variants_share_the_schedule this net method path body :
  attempts_made (fst (_request this net method path body)) =
  attempts_made (fst (_requestText this net method path)) /\
  sleeps (fst (_request this net method path body)) =
  sleeps (fst (_requestText this net method path)) /\
  (body = None ->
   fst (_request this net method path body) = fst (_requestText this net method path)).
Proof.
  assert (Hsame : forall m : nat,
    attempts_made (expected_log (fetch_of_request this method path body) 0 m) =
    attempts_made (expected_log (fetch_of_requestText this method path) 0 m) /\
    sleeps (expected_log (fetch_of_request this method path body) 0 m) =
    sleeps (expected_log (fetch_of_requestText this method path) 0 m) /\
    (body = None ->
     expected_log (fetch_of_request this method path body) 0 m =
     expected_log (fetch_of_requestText this method path) 0 m)).
  { intros m. rewrite !attempts_made_expected_log, !sleeps_expected_log by reflexivity.
    repeat split. intros ->. reflexivity. }
  destruct (first_settling_exchange net (Z.to_nat (maxRetries this + 1)))
    as [Hall | [k [res [Hk [Hret [Hnet Hst]]]]]].
  - assert (Hret : forall i, 0 <= i <= maxRetries this -> retryable (net i) = true).
    { intros i Hi. apply Hall. lia. }
    rewrite (_request_exhausts _ _ _ _ _ Hret), (_requestText_exhausts _ _ _ _ Hret).
    apply Hsame.
  - assert (Hle : Z.of_nat k <= maxRetries this) by lia.
    rewrite (_request_settles this net method path body k res Hle Hret Hnet Hst).
    rewrite (_requestText_settles this net method path k res Hle Hret Hnet Hst).
    apply Hsame.
Qed.

(** X11: when no response within the budget has status 402, [_request] and
    [_requestText] throw the same [NetworkError]s: one throws it exactly
    when the other does. *)
Theorem variants_throw_the_same_network_error this net method path body :
  (forall i res, 0 <= i <= maxRetries this -> net i = Resolves res -> status res <> 402) ->
  forall e,
    snd (_request this net method path body) = Threw (ThrownNetwork e) <->
    snd (_requestText this net method path) = Threw (ThrownNetwork e).
Proof.
  intros H402 e.
  destruct (first_settling_exchange net (Z.to_nat (maxRetries this + 1)))
    as [Hall | [k [res [Hk [Hret [Hnet Hst]]]]]].
  - assert (Hret : forall i, 0 <= i <= maxRetries this -> retryable (net i) = true).
    { intros i Hi. apply Hall. lia. }
    rewrite (_request_exhausts _ _ _ _ _ Hret), (_requestText_exhausts _ _ _ _ Hret).
    cbn [snd]. unfold exhausted. split; intros He; injection He as <-; reflexivity.
  - assert (Hle : Z.of_nat k <= maxRetries this) by lia.
    rewrite (_request_settles this net method path body k res Hle Hret Hnet Hst).
    rewrite (_requestText_settles this net method path k res Hle Hret Hnet Hst).
    cbn [snd]. unfold settled_request, settled_requestText.
    pose proof (H402 (Z.of_nat k) res ltac:(lia) Hnet) as Hne.
    destruct (Z.eqb_spec (status res) 402); [contradiction|].
    destruct (400 <=? status res).
    + split; intros He; injection He as <-; reflexivity.
    + destruct (json_body res), (text_body res); split; discriminate.
Qed.

Lemma variants_throw_the_same_network_error_witness :
  let this := constructor {| opt_baseUrl := None; opt_timeoutMs := None;
                             opt_maxRetries := Some 1 |} in
  let net := fun _ : Z =>
    Resolves {| status := 429; statusText := "Too Many Requests";
                json_body := None; text_body := Some "slow down" |} in
  let e := NetworkError.new "HTTP 429: slow down" (Some 429) in
  snd (_request this net GET "/health" None) = Threw (ThrownNetwork e) <->
  snd (_requestText this net GET "/health") = Threw (ThrownNetwork e).
Proof.
  intros this net e.
  apply (variants_throw_the_same_network_error this net GET "/health" None).
  intros i res _ Hres. injection Hres as <-. simpl. discriminate.
Defined.

(** *** Status 402, continued *)

Lemma request_402_carries_accepts_witness :
  let this := constructor {| opt_baseUrl := None; opt_timeoutMs := None;
                             opt_maxRetries := None |} in
  let option1 := JObj [("scheme", JStr "exact"); ("network", JStr "base");
                       ("maxAmountRequired", JStr "10000"); ("asset", JStr "USDC");
                       ("payTo", JStr "0xfeed")] in
  let raw := JObj [("x402Version", JNum "1"); ("accepts", JArr [option1])] in
  let res := {| status := 402; statusText := "Payment Required";
                json_body := Some raw; text_body := None |} in
  let e := {| PaymentRequiredError.name := "PaymentRequiredError";
              PaymentRequiredError.message := "Payment required: 10000 USDC";
              PaymentRequiredError.statusCode := 402;
              PaymentRequiredError.accepts := [option1];
              PaymentRequiredError.rawBody := raw |} in
  _request this (fun _ => Resolves res) GET "/v1/score/full?wallet=0xabc" None =
    ([fetch_of_request this GET "/v1/score/full?wallet=0xabc" None],
     Threw (ThrownPaymentRequired e)) /\
  PaymentRequiredError.accepts e = [option1] /\
  PaymentRequiredError.rawBody e = raw.
Proof.
  intros this option1 raw res e.
  apply (request_402_carries_accepts this (fun _ => Resolves res) GET
           "/v1/score/full?wallet=0xabc" None res e).
  - vm_compute. discriminate.
  - reflexivity.
  - reflexivity.
  - discriminate.
  - reflexivity.
Defined.

(** X13: a 402 whose body does not parse, or parses to a value other than
    [null] whose [accepts] is missing or not an array, is answered with a
    [PaymentRequiredError] that has the empty [accepts] list, the message
    "Payment required: unknown unknown", [statusCode] 402 and the parsed
    body (the empty object when it does not parse) as [rawBody]; it ends
    the invocation at the attempt where it arrives. *)
Theorem request_402_without_accepts_array this net method path body (k : nat) res a :
  Z.of_nat k <= maxRetries this ->
  (forall i, 0 <= i < Z.of_nat k -> retryable (net i) = true) ->
  net (Z.of_nat k) = Resolves res ->
  status res = 402 ->
  property (default_to (json_body res) (JObj [])) f_accepts = Normal a ->
  (forall items, a <> Some (JArr items)) ->
  snd (_request this net method path body) =
    Threw (ThrownPaymentRequired
             {| PaymentRequiredError.name := "PaymentRequiredError";
                PaymentRequiredError.message := "Payment required: unknown unknown";
                PaymentRequiredError.statusCode := 402;
                PaymentRequiredError.accepts := [];
                PaymentRequiredError.rawBody := default_to (json_body res) (JObj []) |}) /\
  attempts_made (fst (_request this net method path body)) = Z.of_nat k + 1.
Proof.
  intros Hk Hret Hnet Hst Hprop Harr.
  rewrite (_request_settles this net method path body k res Hk Hret Hnet)
    by (rewrite Hst; reflexivity).
  cbn [fst snd]. split.
  - unfold settled_request. rewrite Hst. cbn [Z.eqb Pos.eqb].
    unfold payment_required. rewrite Hprop. cbn [try_eval].
    assert (Hacc : match a with
                   | Some (JArr items) => items
                   | _ => []
                   end = []).
    { destruct a as [[| | | |items|]|]; try reflexivity.
      exfalso. now apply (Harr items). }
    rewrite Hacc. reflexivity.
  - rewrite attempts_made_expected_log; [lia | reflexivity].
Qed.

Lemma request_402_without_accepts_array_witness :
  let this := constructor {| opt_baseUrl := None; opt_timeoutMs := None;
                             opt_maxRetries := None |} in
  let res := {| status := 402; statusText := "Payment Required";
                json_body := None; text_body := Some "<html>pay</html>" |} in
  let net := fun _ : Z => Resolves res in
  snd (_request this net GET "/v1/score/full?wallet=0xabc" None) =
    Threw (ThrownPaymentRequired
             {| PaymentRequiredError.name := "PaymentRequiredError";
                PaymentRequiredError.message := "Payment required: unknown unknown";
                PaymentRequiredError.statusCode := 402;
                PaymentRequiredError.accepts := [];
                PaymentRequiredError.rawBody := default_to (json_body res) (JObj []) |}) /\
  attempts_made (fst (_request this net GET "/v1/score/full?wallet=0xabc" None))
    = Z.of_nat 0 + 1.
Proof.
  intros this res net.
  apply (request_402_without_accepts_array this net GET
           "/v1/score/full?wallet=0xabc" None 0 res None).
  - vm_compute. discriminate.
  - intros i Hi. simpl in Hi. lia.
  - reflexivity.
  - reflexivity.
  - reflexivity.
  - discriminate.
Defined.

(* ===================================================================== *)
(** ** Further properties of the gating helpers *)
(* ===================================================================== *)

Section GatingFurther.

Variable encodeURIComponent : string -> string.

(** X14: [shouldTransact] and [gateTransaction] make the network calls of
    one [getBasicScore] and no other, and whatever that call throws (a
    [PaymentRequiredError], a [NetworkError], ...) they throw unchanged. *)
Theorem helpers_propagate_the_fetch this net wallet :
  fst (shouldTransact encodeURIComponent this net wallet) =
    fst (getBasicScore encodeURIComponent this net wallet) /\
  fst (gateTransaction encodeURIComponent this net wallet) =
    fst (getBasicScore encodeURIComponent this net wallet) /\
  attempts_made (fst (gateTransaction encodeURIComponent this net wallet))
    <= Z.max 0 (maxRetries this + 1) /\
  (forall t,
     snd (getBasicScore encodeURIComponent this net wallet) = Threw t ->
     snd (shouldTransact encodeURIComponent this net wallet) = Threw t /\
     snd (gateTransaction encodeURIComponent this net wallet) = Threw t).
Proof.
  unfold shouldTransact, gateTransaction.
  assert (Hbound :
    attempts_made (fst (getBasicScore encodeURIComponent this net wallet))
      <= Z.max 0 (maxRetries this + 1)).
  { unfold getBasicScore.
    destruct (_request_log this net GET
                ("/v1/score/basic?wallet=" ++ encodeURIComponent wallet) None)
      as [m [Hm [_ ->]]].
    rewrite attempts_made_expected_log by reflexivity. exact Hm. }
  destruct (getBasicScore encodeURIComponent this net wallet) as [log fetched].
  cbn [fst snd] in *. repeat split; try exact Hbound.
  all: subst fetched; reflexivity.
Qed.

(** X15: whenever [shouldTransact] answers [true], [gateTransaction] on the
    same exchange approves with the reason [proceed]. *)
Theorem shouldTransact_implies_gate_approval this net wallet :
  snd (shouldTransact encodeURIComponent this net wallet) = Returned true ->
  exists g,
    snd (gateTransaction encodeURIComponent this net wallet) = Returned g /\
    approved g = true /\
    reason g = Reason proceed /\
    recommendation g = Some (JStr "proceed").
Proof.
  unfold shouldTransact, gateTransaction.
  destruct (getBasicScore encodeURIComponent this net wallet) as [log fetched].
  cbn [snd]. destruct fetched as [data|t]; [|discriminate].
  destruct data as [| | | |items|props]; cbn [property try_eval];
    try discriminate.
  cbn [field_name].
  destruct (own_property props "recommendation") as [[| | |s| |]|]; cbn [strict_equals_string];
    try discriminate.
  intros H. injection H as H. apply String.eqb_eq in H. subst s.
  eexists. split; [reflexivity|]. repeat split.
Qed.

(** X16: in every result of [gateTransaction], [approved] is true exactly
    when the reason is [proceed] or [proceed_with_caution], and [score],
    [recommendation] and [wallet] are the fields of the fetched payload. *)
Theorem gate_result_is_consistent this net addr g :
  snd (gateTransaction encodeURIComponent this net addr) = Returned g ->
  (approved g = true <->
   reason g = Reason proceed \/ reason g = Reason proceed_with_caution) /\
  exists data,
    snd (getBasicScore encodeURIComponent this net addr) = Returned data /\
    property data f_score = Normal (score g) /\
    property data f_recommendation = Normal (recommendation g) /\
    property data f_wallet = Normal (wallet g).
Proof.
  unfold gateTransaction.
  destruct (getBasicScore encodeURIComponent this net addr) as [log fetched].
  cbn [snd]. destruct fetched as [data|t]; [|discriminate].
  destruct (property data f_recommendation) as [r|te] eqn:Hr; cbn [try_eval];
    [|discriminate].
  destruct (ToPropertyKey r) as [key|te]; cbn [try_eval]; [|discriminate].
  destruct (property data f_score) as [sc|te] eqn:Hs; cbn [try_eval]; [|discriminate].
  destruct (property data f_wallet) as [w|te] eqn:Hw; cbn [try_eval]; [|discriminate].
  intros H. injection H as <-. cbn [approved reason score recommendation wallet].
  split.
  - destruct (default_to (KNOWN_REASONS_get key) (Reason unknown_recommendation))
      as [[| | |]|k]; cbn [is_approving]; split; intros H;
      try reflexivity; try discriminate; try (now left); try (now right);
      destruct H as [H|H]; discriminate.
  - exists data. repeat split; assumption.
Qed.

(** X17: on a payload other than [null] that has no [recommendation]
    (an object without the field, or a value that is not an object),
    [shouldTransact] answers [false] and [gateTransaction] does not
    approve, with the reason [unknown_recommendation]. *)
Theorem helpers_on_missing_recommendation this net wallet log data :
  getBasicScore encodeURIComponent this net wallet = (log, Returned data) ->
  property data f_recommendation = Normal None ->
  shouldTransact encodeURIComponent this net wallet = (log, Returned false) /\
  exists g,
    gateTransaction encodeURIComponent this net wallet = (log, Returned g) /\
    approved g = false /\
    reason g = Reason unknown_recommendation /\
    recommendation g = None.
Proof.
  intros Hget Hrec. unfold shouldTransact, gateTransaction. rewrite Hget, Hrec.
  cbn [try_eval strict_equals_string ToPropertyKey]. split; [reflexivity|].
  assert (Hfield : forall f, exists v, property data f = Normal v).
  { intros f. destruct data; try (eexists; reflexivity). discriminate. }
  destruct (Hfield f_score) as [sc ->]. destruct (Hfield f_wallet) as [w ->].
  cbn [try_eval]. eexists. split; [reflexivity|]. repeat split.
Qed.

(** X18: a payload that is [null] makes both helpers throw the [TypeError]
    of reading a property of [null]. *)
Theorem helpers_on_null_payload this net wallet log :
  getBasicScore encodeURIComponent this net wallet = (log, Returned JNull) ->
  shouldTransact encodeURIComponent this net wallet =
    (log, Threw (ThrownTypeError NullPropertyRead)) /\
  gateTransaction encodeURIComponent this net wallet =
    (log, Threw (ThrownTypeError NullPropertyRead)).
Proof.
  intros Hget. unfold shouldTransact, gateTransaction. rewrite Hget.
  split; reflexivity.
Qed.

End GatingFurther.

Lemma shouldTransact_implies_gate_approval_witness :
  let this := constructor {| opt_baseUrl := None; opt_timeoutMs := None;
                             opt_maxRetries := None |} in
  let data := JObj [("wallet", JStr "0xabc"); ("score", JNum "82");
                    ("recommendation", JStr "proceed")] in
  let net := fun _ : Z =>
    Resolves {| status := 200; statusText := "OK";
                json_body := Some data; text_body := None |} in
  exists g,
    snd (gateTransaction (fun s => s) this net "0xabc") = Returned g /\
    approved g = true /\
    reason g = Reason proceed /\
    recommendation g = Some (JStr "proceed").
Proof.
  intros this data net.
  apply (shouldTransact_implies_gate_approval (fun s => s) this net "0xabc").
  vm_compute. reflexivity.
Defined.

Lemma gate_result_is_consistent_witness :
  let this := constructor {| opt_baseUrl := None; opt_timeoutMs := None;
                             opt_maxRetries := None |} in
  let data := JObj [("wallet", JStr "0xabc"); ("score", JNum "41");
                    ("recommendation", JStr "proceed_with_caution")] in
  let net := fun _ : Z =>
    Resolves {| status := 200; statusText := "OK";
                json_body := Some data; text_body := None |} in
  let g := {| approved := true; reason := Reason proceed_with_caution;
              score := Some (JNum "41");
              recommendation := Some (JStr "proceed_with_caution");
              wallet := Some (JStr "0xabc") |} in
  (approved g = true <->
   reason g = Reason proceed \/ reason g = Reason proceed_with_caution) /\
  exists data',
    snd (getBasicScore (fun s => s) this net "0xabc") = Returned data' /\
    property data' f_score = Normal (score g) /\
    property data' f_recommendation = Normal (recommendation g) /\
    property data' f_wallet = Normal (wallet g).
Proof.
  intros this data net g.
  apply (gate_result_is_consistent (fun s => s) this net "0xabc" g).
  vm_compute. reflexivity.
Defined.

Lemma helpers_on_missing_recommendation_witness :
  let this := constructor {| opt_baseUrl := None; opt_timeoutMs := None;
                             opt_maxRetries := None |} in
  let data := JObj [("wallet", JStr "0xabc"); ("score", JNum "41")] in
  let net := fun _ : Z =>
    Resolves {| status := 200; statusText := "OK";
                json_body := Some data; text_body := None |} in
  let log := [Fetch "https://djd-agent-score.fly.dev/v1/score/basic?wallet=0xabc"
                GET false None] in
  shouldTransact (fun s => s) this net "0xabc" = (log, Returned false) /\
  exists g,
    gateTransaction (fun s => s) this net "0xabc" = (log, Returned g) /\
    approved g = false /\
    reason g = Reason unknown_recommendation /\
    recommendation g = None.
Proof.
  intros this data net log.
  apply (helpers_on_missing_recommendation (fun s => s) this net "0xabc" log data).
  - vm_compute. reflexivity.
  - reflexivity.
Defined.

Lemma helpers_on_null_payload_witness :
  let this := constructor {| opt_baseUrl := None; opt_timeoutMs := None;
                             opt_maxRetries := None |} in
  let net := fun _ : Z =>
    Resolves {| status := 200; statusText := "OK";
                json_body := Some JNull; text_body := None |} in
  let log := [Fetch "https://djd-agent-score.fly.dev/v1/score/basic?wallet=0xabc"
                GET false None] in
  shouldTransact (fun s => s) this net "0xabc" =
    (log, Threw (ThrownTypeError NullPropertyRead)) /\
  gateTransaction (fun s => s) this net "0xabc" =
    (log, Threw (ThrownTypeError NullPropertyRead)).
Proof.
  intros this net log.
  apply (helpers_on_null_payload (fun s => s) this net "0xabc" log).
  vm_compute. reflexivity.
Defined.


Lemma shouldTransact_iff_proceed_witness :
  let this := constructor {| opt_baseUrl := None; opt_timeoutMs := None;
                             opt_maxRetries := None |} in
  let data := JObj [("wallet", JStr "0xabc"); ("score", JNum "41");
                    ("recommendation", JStr "proceed_with_caution")] in
  let net := fun _ : Z =>
    Resolves {| status := 200; statusText := "OK";
                json_body := Some data; text_body := None |} in
  let log := [Fetch "https://djd-agent-score.fly.dev/v1/score/basic?wallet=0xabc"
                GET false None] in
  exists b,
    shouldTransact (fun s => s) this net "0xabc" = (log, Returned b) /\
    (b = true <-> "proceed_with_caution" = "proceed").
Proof.
  intros this data net log.
  apply (shouldTransact_iff_proceed (fun s => s) this net "0xabc" log data).
  - vm_compute. reflexivity.
  - reflexivity.
Defined.

Lemma gateTransaction_mapping_witness :
  let this := constructor {| opt_baseUrl := None; opt_timeoutMs := None;
                             opt_maxRetries := None |} in
  let s := "deny" in
  let data := JObj [("wallet", JStr "0xabc"); ("score", JNum "3");
                    ("recommendation", JStr s)] in
  let net := fun _ : Z =>
    Resolves {| status := 200; statusText := "OK";
                json_body := Some data; text_body := None |} in
  let log := [Fetch "https://djd-agent-score.fly.dev/v1/score/basic?wallet=0xabc"
                GET false None] in
  exists g,
    gateTransaction (fun s => s) this net "0xabc" = (log, Returned g) /\
    (s = "proceed" -> approved g = true /\ reason g = Reason proceed) /\
    (s = "proceed_with_caution" ->
     approved g = true /\ reason g = Reason proceed_with_caution) /\
    (s = "deny" \/ s = "block" -> approved g = false /\ reason g = Reason blocked) /\
    (s <> "proceed" -> s <> "proceed_with_caution" -> s <> "deny" -> s <> "block" ->
     approved g = false /\ reason g = Reason unknown_recommendation).
Proof.
  intros this s data net log.
  apply (gateTransaction_mapping (fun s => s) this net "0xabc" log data s).
  - vm_compute. reflexivity.
  - reflexivity.
  - reflexivity.
Defined.

(* ===================================================================== *)
(** ** Further properties of the constructors and the endpoints *)
(* ===================================================================== *)

Lemma append_empty_r (s : string) : s ++ EmptyString = s.
Proof.
  induction s as [|c s IH]; [reflexivity|]. simpl. now rewrite IH.
Qed.

Lemma strip_trailing_slashes_fixed (s : string) :
  no_trailing_slash s = true -> strip_trailing_slashes s = s.
Proof.
  intros H. rewrite <- (append_empty_r s) at 1.
  now apply strip_trailing_slashes_app.
Qed.

(** X19: for every options record the [baseUrl] of the client has no
    trailing slash and differs from the given one (or the default) by a
    run of trailing slashes only; a given [baseUrl] without a trailing
    slash is kept as it is; and constructing a client again from the
    configuration of a client gives that client. *)
Theorem constructor_normalises_baseUrl options :
  let this := constructor options in
  let given := default_to (opt_baseUrl options) DEFAULT_BASE_URL in
  no_trailing_slash (baseUrl this) = true /\
  (exists slashes, only_slashes slashes = true /\ given = baseUrl this ++ slashes) /\
  (no_trailing_slash given = true -> baseUrl this = given) /\
  constructor {| opt_baseUrl := Some (baseUrl this);
                 opt_timeoutMs := Some (timeoutMs this);
                 opt_maxRetries := Some (maxRetries this) |} = this.
Proof.
  intros this given. subst this. unfold constructor. cbn [baseUrl timeoutMs maxRetries].
  fold given. cbn [opt_baseUrl opt_timeoutMs opt_maxRetries default_to].
  split; [apply strip_trailing_slashes_clean|].
  split; [apply strip_trailing_slashes_split|].
  split; [apply strip_trailing_slashes_fixed|].
  rewrite strip_trailing_slashes_fixed by apply strip_trailing_slashes_clean.
  reflexivity.
Qed.

(** X20: when the first entry of [accepts] gives nothing for a field (the
    entry is [null] or not an object, or the field is missing or [null]),
    the message says "unknown" for it; with both fields so, construction
    succeeds with the message "Payment required: unknown unknown" and keeps
    the whole list. *)
Theorem PaymentRequiredError_nullish_fields first rest rawBody :
  (optional_property (Some first) f_maxAmountRequired = None \/
   optional_property (Some first) f_maxAmountRequired = Some JNull) ->
  (optional_property (Some first) f_asset = None \/
   optional_property (Some first) f_asset = Some JNull) ->
  PaymentRequiredError.new (first :: rest) rawBody =
  Normal {| PaymentRequiredError.name := "PaymentRequiredError";
            PaymentRequiredError.message := "Payment required: unknown unknown";
            PaymentRequiredError.statusCode := 402;
            PaymentRequiredError.accepts := first :: rest;
            PaymentRequiredError.rawBody := rawBody |}.
Proof.
  intros Ha Hb.
  apply (PaymentRequiredError_new_normal (first :: rest) rawBody "unknown" "unknown");
    unfold PaymentRequiredError.first_option_field; cbn [nth_error].
  - destruct Ha as [-> | ->]; reflexivity.
  - destruct Hb as [-> | ->]; reflexivity.
Qed.

Lemma PaymentRequiredError_nullish_fields_witness :
  PaymentRequiredError.new [JNull; JObj [("asset", JStr "USDC")]] (JObj []) =
  Normal {| PaymentRequiredError.name := "PaymentRequiredError";
            PaymentRequiredError.message := "Payment required: unknown unknown";
            PaymentRequiredError.statusCode := 402;
            PaymentRequiredError.accepts := [JNull; JObj [("asset", JStr "USDC")]];
            PaymentRequiredError.rawBody := JObj [] |}.
Proof.
  apply (PaymentRequiredError_nullish_fields JNull [JObj [("asset", JStr "USDC")]]
           (JObj [])).
  - left. reflexivity.
  - left. reflexivity.
Defined.

(** Every call of [fetch] in an invocation of [_request] is the same call. *)
Lemma _request_fetches this net method path body e :
  In e (fst (_request this net method path body)) ->
  is_fetch e = true ->
  e = fetch_of_request this method path body.
Proof.
  destruct (_request_log this net method path body) as [m [_ [_ ->]]].
  apply fetches_of_expected_log.
Qed.

(** X21: the optional arguments of the two endpoints that send a body.
    [registerAgent] with an empty [githubUrl] behaves as without one, and
    with a non-empty one every attempt sends it; [reportFraud] sends
    [txHashes] on every attempt whenever a list is given, also the empty
    list, and no [txHashes] otherwise.  Every attempt is a POST with the
    JSON content type. *)
Theorem optional_arguments_of_post_endpoints this net w name description reason :
  registerAgent this net w name description (Some EmptyString) =
    registerAgent this net w name description None /\
  (forall url e,
     url <> EmptyString ->
     In e (fst (registerAgent this net w name description (Some url))) ->
     is_fetch e = true ->
     exists props,
       e = Fetch (baseUrl this ++ "/v1/agent/register") POST true (Some (JObj props)) /\
       own_property props "githubUrl" = Some (JStr url)) /\
  (forall hashes e,
     In e (fst (reportFraud this net w reason (Some hashes))) ->
     is_fetch e = true ->
     exists props,
       e = Fetch (baseUrl this ++ "/v1/report") POST true (Some (JObj props)) /\
       own_property props "txHashes" = Some (JArr (map JStr hashes))) /\
  (forall e,
     In e (fst (reportFraud this net w reason None)) ->
     is_fetch e = true ->
     exists props,
       e = Fetch (baseUrl this ++ "/v1/report") POST true (Some (JObj props)) /\
       own_property props "txHashes" = None).
Proof.
  split; [reflexivity|]. split; [|split].
  - intros url e Hurl Hin Hf. unfold registerAgent in Hin.
    apply _request_fetches in Hin; [|exact Hf]. subst e.
    destruct url as [|c url]; [contradiction|].
    eexists. split; reflexivity.
  - intros hashes e Hin Hf. unfold reportFraud in Hin.
    apply _request_fetches in Hin; [|exact Hf]. subst e.
    eexists. split; reflexivity.
  - intros e Hin Hf. unfold reportFraud in Hin.
    apply _request_fetches in Hin; [|exact Hf]. subst e.
    eexists. split; reflexivity.
Qed.

(** *** The budget behind a retryable error *)

(** X24: a [NetworkError] without a [statusCode], or with one of 500 or
    more, is thrown only after the whole budget was spent: every attempt
    within it failed in a retryable way and [maxRetries + 1] calls were
    made (none when [maxRetries < 0]). *)
Theorem retryable_error_means_budget_spent this net method path body e :
  (NetworkError.statusCode e = None \/
   exists c, NetworkError.statusCode e = Some c /\ 500 <= c) ->
  (snd (_request this net method path body) = Threw (ThrownNetwork e) ->
   attempts_made (fst (_request this net method path body))
     = Z.max 0 (maxRetries this + 1) /\
   forall i, 0 <= i <= maxRetries this -> retryable (net i) = true) /\
  (snd (_requestText this net method path) = Threw (ThrownNetwork e) ->
   attempts_made (fst (_requestText this net method path))
     = Z.max 0 (maxRetries this + 1) /\
   forall i, 0 <= i <= maxRetries this -> retryable (net i) = true).
Proof.
  intros Hcode.
  assert (Hclient : forall res,
             (500 <=? status res) = false ->
             client_error res <> e).
  { intros res Hst <-. apply Z.leb_gt in Hst. cbn in Hcode.
    destruct Hcode as [H | [c [H Hc]]]; [discriminate|].
    injection H as <-. lia. }
  split.
  - destruct (_request_cases this net method path body)
      as [[Hret ->] | [k [res [Hk [_ [Hnet [Hst ->]]]]]]]; cbn [fst snd].
    + intros _. split; [|exact Hret].
      rewrite attempts_made_expected_log; [lia | reflexivity].
    + unfold settled_request. intros He. exfalso.
      destruct (status res =? 402).
      * destruct (@payment_required_cases json res) as [[te H] | [e' [H _]]];
          rewrite H in He; discriminate.
      * destruct (400 <=? status res).
        -- injection He as He. now apply (Hclient res Hst).
        -- destruct (json_body res); discriminate.
  - destruct (_requestText_cases this net method path)
      as [[Hret ->] | [k [res [Hk [_ [Hnet [Hst ->]]]]]]]; cbn [fst snd].
    + intros _. split; [|exact Hret].
      rewrite attempts_made_expected_log; [lia | reflexivity].
    + unfold settled_requestText. intros He. exfalso.
      destruct (400 <=? status res).
      * injection He as He. now apply (Hclient res Hst).
      * destruct (text_body res); discriminate.
Qed.

Lemma retryable_error_means_budget_spent_witness :
  let this := constructor {| opt_baseUrl := None; opt_timeoutMs := None;
                             opt_maxRetries := Some 2 |} in
  let net := fun _ : Z =>
    Resolves {| status := 500; statusText := "Internal Server Error";
                json_body := None; text_body := Some "boom" |} in
  let e := NetworkError.new "Server error 500: boom" (Some 500) in
  (snd (_request this net GET "/health" None) = Threw (ThrownNetwork e) ->
   attempts_made (fst (_request this net GET "/health" None))
     = Z.max 0 (maxRetries this + 1) /\
   forall i, 0 <= i <= maxRetries this -> retryable (net i) = true) /\
  (snd (_requestText this net GET "/health") = Threw (ThrownNetwork e) ->
   attempts_made (fst (_requestText this net GET "/health"))
     = Z.max 0 (maxRetries this + 1) /\
   forall i, 0 <= i <= maxRetries this -> retryable (net i) = true).
Proof.
  intros this net e.
  apply (retryable_error_means_budget_spent this net GET "/health" None e).
  right. exists 500. split; [reflexivity | lia].
Defined.
